(** * qutebrowser: the URL classifier (utils/url.py) and the external editor
    session (utils/editor.py, as exercised by test/utils/test_editor.py)

    The development is a shallow embedding.  Python [str] values are Rocq
    [string]s, one character standing for one code point; the only place
    where the width of a code point matters is the UTF-8 codec of the editor
    session, which works on lists of code points ([Z]).  Exceptions are an
    explicit [outcome]; the one side effect of url.py that a property talks
    about, the DNS request, is recorded in a trace that the functions
    thread. *)

From Stdlib Require Import ZArith Lia String Ascii List Bool.
From stdpp Require Import base option list gmap strings.

Local Open Scope string_scope.

(** ** Python string primitives used by the sources *)

Module pystr.

(** [s.startswith(p)] *)
Definition startswith (s p : string) : bool := String.prefix p s.

(** [sub in s] *)
Fixpoint contains (sub s : string) : bool :=
  String.prefix sub s ||
  match s with
  | EmptyString => false
  | String _ s' => contains sub s'
  end.

(** The loop of [s.replace(old, new)] for a non-empty [old]: scan from the
    left; at an occurrence of [old] emit [new] and jump over the
    occurrence ([skip] counts the characters of it still to jump). *)
Fixpoint replace_scan (old new : string) (skip : nat) (s : string) : string :=
  match s with
  | EmptyString => EmptyString
  | String c s' =>
      match skip with
      | S k => replace_scan old new k s'
      | O =>
          if String.prefix old s
          then new ++ replace_scan old new (String.length old - 1) s'
          else String c (replace_scan old new 0 s')
      end
  end.

(** With an empty [old] Python puts [new] before every character and at
    the end. *)
Fixpoint intersperse (new s : string) : string :=
  match s with
  | EmptyString => new
  | String c s' => new ++ String c (intersperse new s')
  end.

(** [s.replace(old, new)] *)
Definition replace (old new s : string) : string :=
  match old with
  | EmptyString => intersperse new s
  | _ => replace_scan old new 0 s
  end.

(** every character of [s] satisfies [p] *)
Fixpoint all (p : ascii -> bool) (s : string) : bool :=
  match s with
  | EmptyString => true
  | String c s' => p c && all p s'
  end.

(** the first character of [s], if there is one, satisfies [p] *)
Definition head_is (p : ascii -> bool) (s : string) : bool :=
  match s with
  | EmptyString => false
  | String c _ => p c
  end.

(** the last character of [s], if there is one, satisfies [p] *)
Fixpoint last_is (p : ascii -> bool) (s : string) : bool :=
  match s with
  | EmptyString => false
  | String c EmptyString => p c
  | String _ s' => last_is p s'
  end.

End pystr.

(** ** Exceptions *)

Inductive exn : Type :=
| ValueError (msg : string)
| UnicodeError (msg : string)     (* a subclass of ValueError *)
| IndexError (msg : string)
| KeyError (msg : string).

(** [except ValueError] also catches the subclasses of ValueError. *)
Definition isinstance_ValueError (e : exn) : bool :=
  match e with
  | ValueError _ | UnicodeError _ => true
  | _ => false
  end.

Inductive outcome (A : Type) : Type :=
| Ok (a : A)
| Raise (e : exn).
Arguments Ok {A} a.
Arguments Raise {A} e.

(** ** The fragment of Python's [re] that url.py uses

    A backtracking matcher in continuation-passing style: alternatives are
    tried left to right, [+] is greedy and gives characters back one at a
    time, and a capture group records the text its body consumed.  The
    pattern of url.py repeats character classes only, so [+] is offered on
    classes. *)

Module re.

Inductive pattern : Type :=
| Bol                               (* ^ *)
| Eol                               (* $ *)
| Lit (c : ascii)                   (* a literal character *)
| PlusCls (cls : ascii -> bool)     (* \s+ or \w+ *)
| Alt (a b : pattern)               (* a|b *)
| Seq (a b : pattern)               (* ab *)
| Group (n : nat) (a : pattern).    (* (a), the n-th group *)

(** Where the matcher stands: [c_pos] characters of the subject are behind
    it, [c_rest] is what is left. *)
Record cursor : Type := Cursor {
  c_pos : nat;
  c_rest : string;
  c_groups : gmap nat string
}.

Section greedy.
Context {R : Type} (cls : ascii -> bool).

(** zero or more characters of [cls], longest first *)
Fixpoint star_greedy (pos : nat) (rest : string)
    (k : nat -> string -> option R) : option R :=
  match rest with
  | String c rest' =>
      if cls c then
        match star_greedy (S pos) rest' k with
        | Some r => Some r
        | None => k pos rest
        end
      else k pos rest
  | EmptyString => k pos rest
  end.

(** one or more characters of [cls], longest first *)
Definition plus_greedy (pos : nat) (rest : string)
    (k : nat -> string -> option R) : option R :=
  match rest with
  | String c rest' => if cls c then star_greedy (S pos) rest' k else None
  | EmptyString => None
  end.
End greedy.

(** [$] without MULTILINE: the end of the subject, or just before a
    newline that is its last character. *)
Definition at_eol (rest : string) : bool :=
  match rest with
  | EmptyString => true
  | String c EmptyString => Ascii.eqb c "010"
  | _ => false
  end.

Fixpoint rmatch (p : pattern) (cur : cursor)
    (k : cursor -> option cursor) : option cursor :=
  match p with
  | Bol => if Nat.eqb (c_pos cur) 0 then k cur else None
  | Eol => if at_eol (c_rest cur) then k cur else None
  | Lit c =>
      match c_rest cur with
      | String c' rest' =>
          if Ascii.eqb c c'
          then k (Cursor (S (c_pos cur)) rest' (c_groups cur))
          else None
      | EmptyString => None
      end
  | PlusCls cls =>
      plus_greedy cls (c_pos cur) (c_rest cur)
        (fun pos rest => k (Cursor pos rest (c_groups cur)))
  | Alt a b =>
      match rmatch a cur k with
      | Some r => Some r
      | None => rmatch b cur k
      end
  | Seq a b => rmatch a cur (fun cur' => rmatch b cur' k)
  | Group n a =>
      rmatch a cur (fun cur' =>
        let captured := substring 0 (c_pos cur' - c_pos cur) (c_rest cur) in
        k (Cursor (c_pos cur') (c_rest cur')
                  (<[n := captured]> (c_groups cur'))))
  end.

(** A match object: the span of the whole match and the groups. *)
Record match_obj : Type := Match {
  m_start : nat;
  m_end : nat;
  m_groups : gmap nat string
}.

(** [m.group(n)] for n >= 1; [None] when the group took no part *)
Definition group (m : match_obj) (n : nat) : option string := m_groups m !! n.

(** the match that starts exactly at the cursor position, if any *)
Definition match_at (p : pattern) (pos : nat) (rest : string) : option match_obj :=
  match rmatch p (Cursor pos rest ∅) Some with
  | Some cur => Some (Match pos (c_pos cur) (c_groups cur))
  | None => None
  end.

(** the leftmost match at or after [pos] *)
Fixpoint search_from (p : pattern) (pos : nat) (rest : string) : option match_obj :=
  match match_at p pos rest with
  | Some m => Some m
  | None =>
      match rest with
      | String _ rest' => search_from p (S pos) rest'
      | EmptyString => None
      end
  end.

(** [p.search(txt)] *)
Definition search (p : pattern) (txt : string) : option match_obj :=
  search_from p 0 txt.

(** The loop of [p.sub(repl, txt)]: [skip] characters of the last match
    are still to be jumped over.  A match of length zero (the pattern of
    url.py has none: it asks for a [!]) is replaced and the scan moves on
    by one character. *)
Fixpoint sub_from (p : pattern) (repl : string) (skip pos : nat)
    (rest : string) {struct rest} : string :=
  match skip with
  | S k =>
      match rest with
      | String _ rest' => sub_from p repl k (S pos) rest'
      | EmptyString => EmptyString
      end
  | O =>
      match match_at p pos rest with
      | Some m =>
          repl ++
          match rest with
          | String c rest' =>
              match m_end m - pos with
              | S n => sub_from p repl n (S pos) rest'
              | O => String c (sub_from p repl 0 (S pos) rest')
              end
          | EmptyString => EmptyString
          end
      | None =>
          match rest with
          | String c rest' => String c (sub_from p repl 0 (S pos) rest')
          | EmptyString => EmptyString
          end
      end
  end.

(** [p.sub(repl, txt)] with a plain replacement string *)
Definition sub (p : pattern) (repl txt : string) : string :=
  sub_from p repl 0 0 txt.

End re.

(** ** What url.py takes from outside the repository

    Qt's [QUrl], the character tables behind [\s] and [\w], [str.format],
    [urllib.parse.quote] and the resolver behind [socket.gethostbyname]
    belong to the platform; the functions of url.py are embedded over any
    implementation of them. *)

Inductive dns_answer : Type :=
| Resolved           (* gethostbyname returned an address *)
| GaiError.          (* gethostbyname raised socket.gaierror *)

Class Platform : Type := {
  QUrl : Type;
  QUrl_of_string : string -> QUrl;        (* QUrl(s) *)
  QUrl_toString : QUrl -> string;         (* q.toString() *)
  QUrl_fromUserInput : string -> QUrl;    (* QUrl.fromUserInput(s) *)
  QUrl_host : QUrl -> string;             (* q.host() *)
  re_isspace : ascii -> bool;             (* the class \s *)
  re_isword : ascii -> bool;              (* the class \w *)
  str_format : string -> string -> outcome string;   (* template.format(arg) *)
  urllib_parse_quote : string -> string;
  resolver : string -> dns_answer
}.

(** The configuration collaborator: the values url.py reads from it. *)
Inductive pyvalue : Type :=
| PyNone
| PyBool (b : bool)
| PyStr (s : string).

Definition truthy (v : pyvalue) : bool :=
  match v with
  | PyNone => false
  | PyBool b => b
  | PyStr s => negb (String.eqb s "")
  end.

(** [v == 'lit'] for a string literal *)
Definition eq_str (v : pyvalue) (lit : string) : bool :=
  match v with
  | PyStr s => String.eqb s lit
  | _ => false
  end.

Record Config : Type := {
  general_auto_search : pyvalue;           (* config.get('general', 'auto_search') *)
  searchengines : gmap string string       (* the section 'searchengines' *)
}.

(** ** A small monad for url.py: exceptions, and the trace of the hosts
    handed to [socket.gethostbyname] *)

Definition M (A : Type) : Type := list string -> outcome A * list string.

#[global] Instance M_ret : MRet M := fun A a tr => (Ok a, tr).
#[global] Instance M_bind : MBind M := fun A B f m tr =>
  match m tr with
  | (Ok a, tr') => f a tr'
  | (Raise e, tr') => (Raise e, tr')
  end.

Definition raise {A : Type} (e : exn) : M A := fun tr => (Raise e, tr).

Definition lift {A : Type} (o : outcome A) : M A := fun tr => (o, tr).

(** [try: body  except ValueError: handler] *)
Definition try_except_ValueError {A : Type} (body handler : M A) : M A :=
  fun tr =>
    match body tr with
    | (Raise e, tr') =>
        if isinstance_ValueError e then handler tr' else (Raise e, tr')
    | r => r
    end.

(** ** utils/url.py *)

Module url.
Section url.
Context {P : Platform}.
Variable config : Config.

(** [socket.gethostbyname(host)], the request recorded in the trace *)
Definition socket_gethostbyname (host : string) : M dns_answer :=
  fun tr => (Ok (resolver host), (tr ++ [host])%list).

(** An argument that is "URL as string or QUrl". *)
Inductive url_arg : Type :=
| AsStr (s : string)
| AsQUrl (q : QUrl).

(** [re.compile(r'(^|\s+)!(\w+)($|\s+)')] *)
Definition search_re : re.pattern :=
  re.Seq (re.Group 1 (re.Alt re.Bol (re.PlusCls re_isspace)))
    (re.Seq (re.Lit "!")
      (re.Seq (re.Group 2 (re.PlusCls re_isword))
              (re.Group 3 (re.Alt re.Eol (re.PlusCls re_isspace))))).

(** Lines 43-55 of [_get_search_url]: the key of the search engine and the
    search term. *)
Definition engine_and_term (txt : string) : string * string :=
  match re.search search_re txt with
  | Some m =>
      let engine := default EmptyString (re.group m 2) in
      let term := re.sub search_re "" txt in
      (engine, term)
  | None => ("DEFAULT", txt)
  end.

Definition _get_search_url (txt : string) : outcome QUrl :=
  let '(engine, term) := engine_and_term txt in
  match searchengines config !! engine with
  | None => Raise (ValueError "Search template is None")
  | Some template =>
      if String.eqb term ""
      then Raise (ValueError "No search term given")
      else
        match str_format template (urllib_parse_quote term) with
        | Ok s => Ok (QUrl_fromUserInput s)
        | Raise e => Raise e
        end
  end.

Definition qurl (url : url_arg) : QUrl :=
  match url with
  | AsQUrl q => q
  | AsStr s => QUrl_of_string s
  end.

Definition urlstring (url : url_arg) : string :=
  match url with
  | AsQUrl q => QUrl_toString q
  | AsStr s => s
  end.

Definition PROTOCOLS : list string := ["http://"; "https://"].

Definition _is_url_naive (url : url_arg) : bool :=
  let u := urlstring url in
  existsb (fun proto => pystr.startswith u proto) PROTOCOLS
  || pystr.contains "." u
  || String.eqb u "localhost".

Definition _is_url_dns (url : QUrl) : M bool :=
  let host := QUrl_host url in
  if String.eqb host "" then mret false
  else
    r ← socket_gethostbyname host;
    match r with
    | GaiError => mret false
    | Resolved => mret true
    end.

Definition _special_schemes : list string := ["about"; "qute"].

Definition is_special_url (url : url_arg) : bool :=
  existsb
    (fun scheme =>
       pystr.startswith (pystr.replace "http://" "" (urlstring url)) scheme)
    _special_schemes.

Definition is_url (url : url_arg) : M bool :=
  let urlstr := urlstring url in
  let autosearch := general_auto_search config in
  if negb (truthy autosearch) then mret true
  else if pystr.contains " " urlstr then mret false
  else if is_special_url url then mret true
  else if eq_str autosearch "dns" then _is_url_dns (QUrl_fromUserInput urlstr)
  else if eq_str autosearch "naive" then mret (_is_url_naive url)
  else raise (ValueError "Invalid autosearch value").

Definition fuzzy_url (url : url_arg) : M QUrl :=
  let u := qurl url in
  let urlstr := urlstring url in
  b ← is_url (AsQUrl u);
  if b : bool then mret (QUrl_fromUserInput urlstr)
  else
    try_except_ValueError
      (lift (_get_search_url urlstr))
      (mret (QUrl_fromUserInput urlstr)).

End url.
End url.

(** ** A platform to run the embedding on

    The tables of [\s] and [\w] on the code points below 128, as Python has
    them, and stand-ins for the rest: a [QUrl] that keeps its text, a
    [str.format] for templates whose only braces are one [{}], a [quote]
    that escapes the space, and a resolver that knows one host.  The closed
    examples and the counterexamples run on it; the theorems hold for every
    platform. *)

Module ascii_platform.

Definition between (lo hi : nat) (c : ascii) : bool :=
  let n := nat_of_ascii c in Nat.leb lo n && Nat.leb n hi.

(** [\s] below 128: tab, newline, vertical tab, form feed, carriage
    return, the separators 0x1c-0x1f and the space *)
Definition isspace (c : ascii) : bool := between 9 13 c || between 28 32 c.

(** [\w] below 128: letters, digits and the underscore *)
Definition isword (c : ascii) : bool :=
  between 48 57 c || between 65 90 c || between 97 122 c || Ascii.eqb c "_".

Definition fromUserInput (s : string) : string :=
  if pystr.contains "://" s || String.eqb s "" then s else "http://" ++ s.

Fixpoint until_slash (s : string) : string :=
  match s with
  | EmptyString => EmptyString
  | String c s' => if Ascii.eqb c "/" then EmptyString else String c (until_slash s')
  end.

Fixpoint after_scheme (s : string) : string :=
  match s with
  | EmptyString => EmptyString
  | String _ s' => if String.prefix "://" s then substring 3 (String.length s) s
                   else after_scheme s'
  end.

Definition host (q : string) : string := until_slash (after_scheme q).

Fixpoint format (template arg : string) : string :=
  match template with
  | EmptyString => EmptyString
  | String c t' =>
      if String.prefix "{}" template then arg ++ substring 1 (String.length t') t'
      else String c (format t' arg)
  end.

Fixpoint quote (s : string) : string :=
  match s with
  | EmptyString => EmptyString
  | String c s' => (if Ascii.eqb c " " then "%20" else String c "") ++ quote s'
  end.

Definition resolve (h : string) : dns_answer :=
  if String.eqb h "example.com" then Resolved else GaiError.

Definition platform : Platform := {|
  QUrl := string;
  QUrl_of_string := fun s => s;
  QUrl_toString := fun q => q;
  QUrl_fromUserInput := fromUserInput;
  QUrl_host := host;
  re_isspace := isspace;
  re_isword := isword;
  str_format := fun t a => Ok (format t a);
  urllib_parse_quote := quote;
  resolver := resolve
|}.

Definition engines : gmap string string :=
  <["gg" := "http://gg.example/?q={}"]>
    (<["DEFAULT" := "http://search.example/?q={}"]> ∅).

Definition naive_config : Config :=
  {| general_auto_search := PyStr "naive"; searchengines := engines |}.

Definition dns_config : Config :=
  {| general_auto_search := PyStr "dns"; searchengines := engines |}.

End ascii_platform.

(** ** UTF-8, the encoding of the editor's temporary file

    A text is a list of code points, a file a list of byte values.  The
    encoder refuses what is not a Unicode scalar value (negative, a
    surrogate, above 0x10FFFF); the decoder is the strict one: it refuses
    stray and missing continuation bytes, overlong forms, surrogates and
    values above 0x10FFFF. *)

Module utf8.
Local Open Scope Z_scope.
Local Open Scope list_scope.

Definition surrogate (c : Z) : bool := (0xD800 <=? c) && (c <? 0xE000).

Definition scalar (c : Z) : bool :=
  (0 <=? c) && (c <? 0x110000) && negb (surrogate c).

Definition encode_one (c : Z) : option (list Z) :=
  if c <? 0 then None
  else if c <? 0x80 then Some [c]
  else if c <? 0x800 then Some [0xC0 + c / 0x40; 0x80 + c mod 0x40]
  else if c <? 0x10000 then
    if surrogate c then None
    else Some [0xE0 + c / 0x1000; 0x80 + (c / 0x40) mod 0x40; 0x80 + c mod 0x40]
  else if c <? 0x110000 then
    Some [0xF0 + c / 0x40000; 0x80 + (c / 0x1000) mod 0x40;
          0x80 + (c / 0x40) mod 0x40; 0x80 + c mod 0x40]
  else None.

Fixpoint encode (text : list Z) : option (list Z) :=
  match text with
  | [] => Some []
  | c :: text' =>
      match encode_one c, encode text' with
      | Some b, Some bs => Some (b ++ bs)
      | _, _ => None
      end
  end.

(** a continuation byte, 10xxxxxx *)
Definition cont (b : Z) : bool := (0x80 <=? b) && (b <? 0xC0).

Definition push (c : Z) (r : option (list Z)) : option (list Z) :=
  match r with
  | Some text => Some (c :: text)
  | None => None
  end.

Fixpoint decode (bs : list Z) : option (list Z) :=
  match bs with
  | [] => Some []
  | b0 :: r0 =>
      if (0 <=? b0) && (b0 <? 0x80) then push b0 (decode r0)
      else if (0xC2 <=? b0) && (b0 <? 0xE0) then
        match r0 with
        | b1 :: r1 =>
            if cont b1
            then push ((b0 - 0xC0) * 0x40 + (b1 - 0x80)) (decode r1)
            else None
        | _ => None
        end
      else if (0xE0 <=? b0) && (b0 <? 0xF0) then
        match r0 with
        | b1 :: b2 :: r2 =>
            let c := (b0 - 0xE0) * 0x1000 + (b1 - 0x80) * 0x40 + (b2 - 0x80) in
            if cont b1 && cont b2 && (0x800 <=? c) && negb (surrogate c)
            then push c (decode r2)
            else None
        | _ => None
        end
      else if (0xF0 <=? b0) && (b0 <? 0xF5) then
        match r0 with
        | b1 :: b2 :: b3 :: r3 =>
            let c := (b0 - 0xF0) * 0x40000 + (b1 - 0x80) * 0x1000
                     + (b2 - 0x80) * 0x40 + (b3 - 0x80) in
            if cont b1 && cont b2 && cont b3
               && (0x10000 <=? c) && (c <? 0x110000)
            then push c (decode r3)
            else None
        | _ => None
        end
      else None
  end.

End utf8.

(** ** The external editor session

    utils/editor.py is not among the sources; test/utils/test_editor.py,
    which drives it, is.  The session is modelled from the specification,
    and the test cases of the test file are stated on the model in
    [test_editor] and proved of it in [test_editor_passes]. *)

Module editor.

Inductive ExitStatus : Type := NormalExit | CrashExit.

Inductive ProcessError : Type :=
| FailedToStart | Crashed | Timedout | WriteError | ReadError | UnknownError.

(** What [message.error] shows the user. *)
Inductive notification : Type :=
| ProcessExitError (exitcode : Z)
| ProcessCrashError (error : ProcessError)
| FileAccessError (name : string).

(** What [edit] can raise. *)
Inductive edit_exn : Type :=
| ConfigurationError      (* the configured command list is empty *)
| AlreadyEditing          (* the session is already in Editing *)
| FileExistsError         (* the name offered for the temp file is taken *)
| UnicodeEncodeError.     (* the text is not encodable in UTF-8 *)

Inductive result : Type :=
| Done
| Raised (e : edit_exn).

Inductive fs_event : Type :=
| Created (name : string)
| Removed (name : string).

#[global] Instance fs_event_eq_dec : EqDecision fs_event.
Proof. solve_decision. Defined.

(** The session object: the name of its temp file while it edits, and the
    process it started, as [proc.start(executable, args)] was called. *)
Record ExternalEditor : Type := Session {
  filename : option string;
  proc : option (string * list string)
}.

(** What the session acts on: the file system, the notifications shown,
    the texts sent through [editing_finished], and the log of the temp
    files it created and removed. *)
Record world : Type := World {
  files : gmap string (list Z);
  errors : list notification;
  emitted : list (list Z);
  fslog : list fs_event
}.

Definition state : Type := ExternalEditor * world.

Definition idle : ExternalEditor := Session None None.

(** Modelled from the spec: the argument list that [ExternalEditor.edit]
    passes to the process (editor.py is missing).  "A token equal to the
    literal placeholder [{}] is replaced by the temp file path"; a token
    that only contains the placeholder is handed on as it is, which is
    what ArgTests.test_in_arg_placeholder asserts of the code
    ([proc.start] is called with [["foo{}bar"]]). *)
Definition build_args (name : string) (args : list string) : list string :=
  map (fun arg => if String.eqb arg "{}" then name else arg) args.

(** Modelled from the spec: [ExternalEditor._cleanup] (editor.py is
    missing), the idempotent cleanup: it removes the temp file of the
    session if there is one and returns the session to Idle; without a
    temp file it does nothing. *)
Definition _cleanup (st : state) : state :=
  let '(s, w) := st in
  match filename s with
  | None => (s, w)
  | Some name =>
      match files w !! name with
      | Some _ =>
          (idle, World (delete name (files w)) (errors w) (emitted w)
                       (fslog w ++ [Removed name]))
      | None => (idle, w)
      end
  end.

Definition notify (n : notification) (st : state) : state :=
  let '(s, w) := st in
  (s, World (files w) (errors w ++ [n]) (emitted w) (fslog w)).

Definition emit (text : list Z) (st : state) : state :=
  let '(s, w) := st in
  (s, World (files w) (errors w) (emitted w ++ [text]) (fslog w)).

(** Modelled from the spec: [ExternalEditor.edit] (editor.py is missing).
    [editor_cmd] is the configured command, [tmp] the name the operating
    system hands out for the new temp file.  The text is written to the
    new file in UTF-8, then the command line is built and the process
    started; an empty command list is a configuration error.  The state
    machine has no [edit] out of Editing: the call is refused there. *)
Definition edit (editor_cmd : list string) (tmp : string) (text : list Z)
    (st : state) : result * state :=
  let '(s, w) := st in
  match filename s with
  | Some _ => (Raised AlreadyEditing, st)
  | None =>
      match files w !! tmp with
      | Some _ => (Raised FileExistsError, st)
      | None =>
          let created bytes :=
            World (<[tmp := bytes]> (files w)) (errors w) (emitted w)
                  (fslog w ++ [Created tmp]) in
          match utf8.encode text with
          | None => (Raised UnicodeEncodeError, (Session (Some tmp) None, created []))
          | Some bytes =>
              match editor_cmd with
              | [] => (Raised ConfigurationError, (Session (Some tmp) None, created bytes))
              | executable :: args =>
                  (Done, (Session (Some tmp) (Some (executable, build_args tmp args)),
                          created bytes))
              end
          end
      end
  end.

(** Modelled from the spec: [ExternalEditor.on_proc_closed] (editor.py is
    missing).  Exit status 0 of a normal exit: the file is read and
    decoded, removed, and the text emitted; a file that cannot be read is
    an error shown to the user.  A nonzero status: an error is shown.  A
    crash exit: the error was the business of [on_proc_error].  The
    cleanup runs in every case.  Without a temp file (the notification
    that follows a crash) nothing is left to do. *)
Definition on_proc_closed (exitcode : Z) (exitstatus : ExitStatus)
    (st : state) : state :=
  let '(s, w) := st in
  match filename s with
  | None => st
  | Some name =>
      match exitstatus with
      | CrashExit => _cleanup st
      | NormalExit =>
          if Z.eqb exitcode 0 then
            match files w !! name with
            | Some bytes =>
                match utf8.decode bytes with
                | Some text => emit text (_cleanup st)
                | None => _cleanup (notify (FileAccessError name) st)
                end
            | None => _cleanup (notify (FileAccessError name) st)
            end
          else _cleanup (notify (ProcessExitError exitcode) st)
      end
  end.

(** Modelled from the spec: [ExternalEditor.on_proc_error] (editor.py is
    missing): the error is shown to the user and the cleanup runs. *)
Definition on_proc_error (error : ProcessError) (st : state) : state :=
  _cleanup (notify (ProcessCrashError error) st).

(** The editor process saves the file it was given (the [_write] of the
    test file). *)
Definition editor_saves (bytes : list Z) (st : state) : state :=
  let '(s, w) := st in
  match filename s with
  | Some name =>
      (s, World (<[name := bytes]> (files w)) (errors w) (emitted w) (fslog w))
  | None => st
  end.

(** What can happen to a session, and a run of such events. *)
Inductive event : Type :=
| EvEdit (editor_cmd : list string) (tmp : string) (text : list Z)
| EvSave (bytes : list Z)
| EvClosed (exitcode : Z) (exitstatus : ExitStatus)
| EvError (error : ProcessError)
| EvCleanup.

Definition step (ev : event) (st : state) : state :=
  match ev with
  | EvEdit cmd tmp text => snd (edit cmd tmp text st)
  | EvSave bytes => editor_saves bytes st
  | EvClosed c s => on_proc_closed c s st
  | EvError e => on_proc_error e st
  | EvCleanup => _cleanup st
  end.

Definition run (evs : list event) (st : state) : state :=
  foldl (fun st ev => step ev st) st evs.

(** A new session in a world where it has done nothing yet. *)
Definition initial (fs : gmap string (list Z)) : state :=
  (idle, World fs [] [] []).

(** how often the session created, and removed, the file [name] *)
Definition creations (name : string) (w : world) : nat :=
  length (filter (fun e => e = Created name) (fslog w)).
Definition removals (name : string) (w : world) : nat :=
  length (filter (fun e => e = Removed name) (fslog w)).

(** the temp files of the session that are alive: created more often than
    removed *)
Definition live (name : string) (w : world) : Prop :=
  removals name w < creations name w.

End editor.

(** ** test/utils/test_editor.py

    The test cases, as statements about a new session ([setUp]) in a world
    with an empty file system; [tmp] is the name the operating system hands
    out for the temp file.  [editorutils.config] is the command list passed
    to [edit]; [message.error.called] is a non-empty list of errors;
    [os.path.exists] is a lookup in the file system. *)

Module test_editor.
Import editor.
Local Open Scope Z_scope.

(** the state after [self.editor.edit(text)] with the given command *)
Definition after_edit (cmd : list string) (tmp : string) (text : list Z) : state :=
  (edit cmd tmp text (initial ∅)).2.

(** [self.editor.proc.start.assert_called_with(executable, args)] *)
Definition start_called_with (st : state) (executable : string)
    (args : list string) : Prop :=
  proc st.1 = Some (executable, args).

(** [os.path.exists(filename)] *)
Definition exists_ (st : state) (name : string) : Prop :=
  is_Some (files st.2 !! name).

(** [TextModifyTests._write]: the file is overwritten with the text in
    UTF-8.  The file is opened in text mode: on writing, a newline becomes
    [os.linesep], which is the newline itself where the tests run
    (POSIX). *)
Definition _write (text : list Z) (st : state) : state :=
  match utf8.encode text with
  | Some bytes => editor_saves bytes st
  | None => st
  end.

(** What [open(..., 'r')] does to the decoded text ([newline=None],
    universal newlines): a carriage return followed by a newline, and a
    carriage return alone, are read as one newline. *)
Fixpoint universal_newlines (text : list Z) : list Z :=
  match text with
  | [] => []
  | c :: rest =>
      if c =? 13 then
        10 :: match rest with
              | c' :: rest' =>
                  if c' =? 10 then universal_newlines rest'
                  else universal_newlines rest
              | [] => []
              end
      else c :: universal_newlines rest
  end.

(** [TextModifyTests._read]: the file of the session is read in text
    mode, decoded as UTF-8 *)
Definition _read (st : state) : option (list Z) :=
  match filename st.1 with
  | Some name =>
      match files st.2 !! name with
      | Some bytes => universal_newlines <$> utf8.decode bytes
      | None => None
      end
  | None => None
  end.

(** [self.editor.editing_finished.emit.assert_called_with(text)]: the last
    emission is [text] *)
Definition emit_called_with (st : state) (text : list Z) : Prop :=
  last (emitted st.2) = Some text.

(** the texts of TextModifyTests, as code points *)
Definition Hello : list Z := [0x48; 0x65; 0x6C; 0x6C; 0x6F].
Definition World_ : list Z := [0x57; 0x6F; 0x72; 0x6C; 0x64].
Definition Haelloe_Woerld : list Z :=
  [0x48; 0xE4; 0x6C; 0x6C; 0xF6; 0x20; 0x57; 0xF6; 0x72; 0x6C; 0x64].
Definition Ueberpruefung : list Z :=
  [0xDC; 0x62; 0x65; 0x72; 0x70; 0x72; 0xFC; 0x66; 0x75; 0x6E; 0x67].
Definition snowman : list Z := [0x2603].
Definition cloud : list Z := [0x2601].

(** ArgTests *)
Definition test_simple_start_args (tmp : string) : Prop :=
  start_called_with (after_edit ["bin"] tmp []) "bin" [].

Definition test_start_args (tmp : string) : Prop :=
  start_called_with (after_edit ["bin"; "foo"; "bar"] tmp []) "bin" ["foo"; "bar"].

Definition test_placeholder (tmp : string) : Prop :=
  let st := after_edit ["bin"; "foo"; "{}"; "bar"] tmp [] in
  exists name, filename st.1 = Some name
               /\ start_called_with st "bin" ["foo"; name; "bar"].

Definition test_in_arg_placeholder (tmp : string) : Prop :=
  start_called_with (after_edit ["bin"; "foo{}bar"] tmp []) "bin" ["foo{}bar"].

(** FileHandlingTests *)
Definition test_file_handling_closed_ok (tmp : string) : Prop :=
  let st := after_edit [""] tmp [] in
  exists name, filename st.1 = Some name
               /\ exists_ st name
               /\ ~ exists_ (on_proc_closed 0 NormalExit st) name.

Definition test_file_handling_closed_error (tmp : string) : Prop :=
  let st := after_edit [""] tmp [] in
  exists name, filename st.1 = Some name
               /\ exists_ st name
               /\ ~ exists_ (on_proc_closed 1 NormalExit st) name.

Definition test_file_handling_closed_crash (tmp : string) : Prop :=
  let st := after_edit [""] tmp [] in
  exists name, filename st.1 = Some name
               /\ exists_ st name
               /\ ~ exists_ (on_proc_closed 0 CrashExit (on_proc_error Crashed st)) name.

(** TextModifyTests: [edit(before)], the file reads [before]; the editor
    writes [after]; the process closes with status 0; [after] is
    emitted. *)
Definition text_modify_test (before after : list Z) (tmp : string) : Prop :=
  let st := after_edit [""] tmp before in
  _read st = Some before
  /\ emit_called_with (on_proc_closed 0 NormalExit (_write after st)) after.

Definition test_empty_input : string -> Prop := text_modify_test [] Hello.
Definition test_simple_input : string -> Prop := text_modify_test Hello World_.
Definition test_umlaut : string -> Prop :=
  text_modify_test Haelloe_Woerld Ueberpruefung.
Definition test_unicode : string -> Prop := text_modify_test snowman cloud.

(** ErrorMessageTests *)
Definition test_proc_error (tmp : string) : Prop :=
  errors (on_proc_error Crashed (after_edit [""] tmp [])).2 <> [].

Definition test_proc_return (tmp : string) : Prop :=
  errors (on_proc_closed 1 NormalExit (after_edit [""] tmp [])).2 <> [].

End test_editor.

(** A session that edits a snowman with [vim {}], for the examples. *)
Definition snowman_tmp : string := "/tmp/tmpq7x2".
Definition snowman_session : editor.state :=
  test_editor.after_edit ["vim"; "{}"] snowman_tmp test_editor.snowman.

(** ** The vocabulary of the properties *)

(** *** Texts handed to the classifier *)

(** the text has a space somewhere *)
Definition has_space (u : string) : Prop := exists a b, u = a ++ " " ++ b.

(** the text starts with [about:] or [qute:], after an optional [http://] *)
Definition special_prefix (u : string) : Prop :=
  exists r, u = "about:" ++ r \/ u = "qute:" ++ r
            \/ u = "http://about:" ++ r \/ u = "http://qute:" ++ r.

(** The text, as [is_special_url] looks at it, starts with a scheme name:
    with every [http://] taken out it starts with [about] or [qute].  No
    colon is asked for. *)
Definition scheme_name_prefix (u : string) : Prop :=
  exists r, pystr.replace "http://" "" u = "about" ++ r
            \/ pystr.replace "http://" "" u = "qute" ++ r.

(** the condition of the naive mode, in words *)
Definition looks_like_url (u : string) : Prop :=
  (exists r, u = "http://" ++ r) \/ (exists r, u = "https://" ++ r)
  \/ (exists a b, u = a ++ "." ++ b) \/ u = "localhost".

(** A configuration whose autosearch value names no mode. *)
Definition bogus_config : Config :=
  {| general_auto_search := PyStr "bogus";
     searchengines := ascii_platform.engines |}.

(** A configuration without search engines. *)
Definition no_engines_config : Config :=
  {| general_auto_search := PyStr "naive"; searchengines := ∅ |}.

(** *** Markers in a search text *)

(** What the character tables of a platform have to satisfy for the
    statements about markers: [!] is not whitespace, the newline is, and no
    character is both whitespace and a word character. *)
Definition tables_ok {P : Platform} : Prop :=
  re_isspace "!" = false
  /\ re_isspace "010" = true
  /\ (forall c, re_isspace c = true -> re_isword c = false).

(** the text has no [!] *)
Definition no_bang (s : string) : Prop := pystr.contains "!" s = false.

(** a text is followed by the end or by whitespace *)
Definition bounded_right {P : Platform} (b : string) : Prop :=
  b = "" \/ pystr.head_is re_isspace b = true.

(** a text is preceded by the start or by whitespace *)
Definition bounded_left {P : Platform} (a : string) : Prop :=
  a = "" \/ pystr.last_is re_isspace a = true.

(** A marker [!w] in the text [txt = a !w b], as the pattern of the code
    has it: [w] is one or more word characters, in front of the [!] is the
    start of the text or whitespace, behind the word the end of the text or
    whitespace. *)
Definition marker {P : Platform} (txt a w b : string) : Prop :=
  txt = a ++ "!" ++ w ++ b
  /\ bounded_left a
  /\ w <> "" /\ pystr.all re_isword w = true
  /\ bounded_right b.

(** The marker as the specification describes it: the word is one or more
    characters that are not whitespace. *)
Definition claimed_marker {P : Platform} (txt a w b : string) : Prop :=
  txt = a ++ "!" ++ w ++ b
  /\ bounded_left a
  /\ w <> "" /\ pystr.all (fun c => negb (re_isspace c)) w = true
  /\ bounded_right b.

(** the first marker of the text *)
Definition first_marker {P : Platform} (txt a w b : string) : Prop :=
  marker txt a w b
  /\ forall a' w' b', marker txt a' w' b' -> String.length a <= String.length a'.

(** the stretch of text in front of a marker: no [!] in it, and it does not
    end in whitespace *)
Definition plain_prefix {P : Platform} (pre : string) : Prop :=
  no_bang pre /\ (pre = "" \/ pystr.last_is re_isspace pre = false).

(** A text with exactly one marker, taken apart: [pre ws1 !w ws2 t], where
    [ws1] is all the whitespace in front of the marker and [ws2] all the
    whitespace behind it.  Other [!] may occur in the text, as long as they
    do not make a second marker. *)
Definition sole_marker {P : Platform} (pre ws1 w ws2 t : string) : Prop :=
  marker (pre ++ ws1 ++ "!" ++ w ++ ws2 ++ t) (pre ++ ws1) w (ws2 ++ t)
  /\ (forall a' w' b',
        marker (pre ++ ws1 ++ "!" ++ w ++ ws2 ++ t) a' w' b' -> a' = pre ++ ws1)
  /\ pystr.all re_isspace ws1 = true
  /\ (pre = "" \/ pystr.last_is re_isspace pre = false)
  /\ pystr.all re_isspace ws2 = true
  /\ pystr.head_is re_isspace t = false.

(** What is left behind the marker in the term: the text behind the
    whitespace, but a single final newline directly behind the marker is
    not part of the match ([$] matches in front of it) and stays. *)
Definition behind_marker (ws2 t : string) : string :=
  if String.eqb (ws2 ++ t) (String "010" "") then String "010" "" else t.

(** the pattern after its first group: [!(\w+)($|\s+)] *)
Definition tail_re {P : Platform} : re.pattern :=
  re.Seq (re.Lit "!")
    (re.Seq (re.Group 2 (re.PlusCls re_isword))
            (re.Group 3 (re.Alt re.Eol (re.PlusCls re_isspace)))).

(** what the matcher does once the first group has matched *)
Definition after_group1 {P : Platform} (pos : nat) (rest : string)
    (pos' : nat) (rest' : string) : option re.cursor :=
  re.rmatch tail_re
    (re.Cursor pos' rest' (<[1 := substring 0 (pos' - pos) rest]> ∅)) Some.

(** the shape of the text in front of the matcher when a match starts
    there *)
Definition match_shape {P : Platform} (pos : nat) (v ws1 w b : string) : Prop :=
  v = ws1 ++ "!" ++ w ++ b
  /\ pystr.all re_isspace ws1 = true /\ (ws1 = "" -> pos = 0)
  /\ w <> "" /\ pystr.all re_isword w = true /\ bounded_right b.

(** *** Editor sessions *)

(** the session is in Editing: it has a temp file, and the file exists *)
Definition editing (st : editor.state) (name : string) (bytes : list Z) : Prop :=
  editor.filename st.1 = Some name /\ editor.files st.2 !! name = Some bytes.

(** the session is idle and the name is free for a new temp file *)
Definition ready (st : editor.state) (tmp : string) : Prop :=
  editor.filename st.1 = None /\ editor.files st.2 !! tmp = None.

(** every code point of the text is a Unicode scalar value *)
Definition unicode (text : list Z) : Prop := forallb utf8.scalar text = true.

(** the text has no carriage return *)
Definition no_cr (text : list Z) : Prop :=
  forallb (fun c => negb (c =? 13)%Z) text = true.

(** The argument list as the specification describes it: the placeholder
    is substituted wherever it occurs in a token. *)
Definition claimed_build_args (name : string) (args : list string) : list string :=
  map (pystr.replace "{}" name) args.

(** The bookkeeping of temp files is in order: every file the session
    created was removed as often as it was created, but for the file it is
    editing, which was created once more than removed and exists. *)
Definition balanced (st : editor.state) : Prop :=
  (forall name, editor.creations name st.2
                = editor.removals name st.2
                  + (if decide (editor.filename st.1 = Some name) then 1 else 0))
  /\ (forall name, editor.filename st.1 = Some name ->
                   is_Some (editor.files st.2 !! name)).

(** a terminal transition: the session is idle again and its temp file was
    removed, once *)
Definition terminated (st : editor.state) (name : string) (st' : editor.state) : Prop :=
  st'.1 = editor.idle
  /\ editor.files st'.2 = delete name (editor.files st.2)
  /\ editor.fslog st'.2 = (editor.fslog st.2 ++ [editor.Removed name])%list.

(** the events that end an edit: the two notifications of the process and
    the cleanup *)
Definition terminal (ev : editor.event) : Prop :=
  match ev with
  | editor.EvClosed _ _ | editor.EvError _ | editor.EvCleanup => True
  | editor.EvEdit _ _ _ | editor.EvSave _ => False
  end.

(** *** More configurations and a second platform, for examples *)

(** autosearch switched off *)
Definition off_config : Config :=
  {| general_auto_search := PyBool false;
     searchengines := ascii_platform.engines |}.

(** [str.format] raises IndexError for a template that asks for a second
    argument, as Python does for [{1}]; otherwise it is the stand-in of
    [ascii_platform]. *)
Definition format_or_index_error (template arg : string) : outcome string :=
  if pystr.contains "{1}" template
  then Raise (IndexError "tuple index out of range")
  else Ok (ascii_platform.format template arg).

Definition indexing_platform : Platform := {|
  QUrl := string;
  QUrl_of_string := fun s => s;
  QUrl_toString := fun q => q;
  QUrl_fromUserInput := ascii_platform.fromUserInput;
  QUrl_host := ascii_platform.host;
  re_isspace := ascii_platform.isspace;
  re_isword := ascii_platform.isword;
  str_format := format_or_index_error;
  urllib_parse_quote := ascii_platform.quote;
  resolver := ascii_platform.resolve
|}.

(** a DEFAULT engine whose template asks for a second argument *)
Definition second_argument_config : Config :=
  {| general_auto_search := PyStr "naive";
     searchengines := <["DEFAULT" := "http://search.example/?q={1}"]> ∅ |}.

(** the result of expanding a template with a term *)
Definition expand {P : Platform} (template term : string) : outcome QUrl :=
  match str_format template (urllib_parse_quote term) with
  | Ok s => Ok (QUrl_fromUserInput s)
  | Raise e => Raise e
  end.

(** * Properties *)

#[local] Arguments String.append !s1 s2 / : simpl nomatch.

(** ** The string primitives meet their Python descriptions *)

Module pystr_facts.
Lemma prefix_spec (p s : string) :
  String.prefix p s = true <-> exists r, s = p ++ r.
Proof.
  revert s; induction p as [|c p IH]; intros s; simpl.
  - split; [intros _; exists s; reflexivity | intros _; destruct s; reflexivity].
  - destruct s as [|d s]; simpl.
    + split; [discriminate | intros [r Hr]; discriminate].
    + destruct (ascii_dec c d) as [->|Hne].
      * rewrite IH. split; intros [r Hr]; exists r; [now rewrite Hr | now inversion Hr].
      * split; [discriminate | intros [r Hr]; inversion Hr; subst; contradiction].
Qed.

Lemma startswith_spec (s p : string) :
  pystr.startswith s p = true <-> exists r, s = p ++ r.
Proof. apply prefix_spec. Qed.

Lemma contains_spec (sub s : string) :
  pystr.contains sub s = true <-> exists a b, s = a ++ sub ++ b.
Proof.
  induction s as [|c s IH]; cbn [pystr.contains].
  - rewrite orb_false_r, prefix_spec. split.
    + intros [r Hr]. exists "", r. exact Hr.
    + intros [a [b Hab]]. destruct a; simpl in Hab; [eauto | discriminate].
  - rewrite orb_true_iff, prefix_spec, IH. split.
    + intros [[r Hr] | [a [b Hab]]].
      * exists "", r. exact Hr.
      * exists (String c a), b. simpl. now rewrite Hab.
    + intros [a [b Hab]]. destruct a as [|d a]; simpl in Hab.
      * left. eauto.
      * right. inversion Hab. eauto.
Qed.
End pystr_facts.


(** ** Strings and the greedy loops of the matcher *)

Module str_facts.
Lemma app_assoc (a b c : string) : (a ++ b) ++ c = a ++ (b ++ c).
Proof. induction a as [|x a IH]; simpl; [reflexivity | now rewrite IH]. Qed.

Lemma app_empty_r (a : string) : a ++ "" = a.
Proof. induction a as [|x a IH]; simpl; [reflexivity | now rewrite IH]. Qed.

Lemma length_app (a b : string) :
  String.length (a ++ b) = String.length a + String.length b.
Proof. induction a as [|x a IH]; simpl; [reflexivity | now rewrite IH]. Qed.

Lemma substring_app (a b : string) : substring 0 (String.length a) (a ++ b) = a.
Proof.
  induction a as [|x a IH]; simpl.
  - destruct b; reflexivity.
  - now rewrite IH.
Qed.

Lemma head_is_app (p : ascii -> bool) (a b : string) :
  a <> "" -> pystr.head_is p (a ++ b) = pystr.head_is p a.
Proof. destruct a; [contradiction | reflexivity]. Qed.

Lemma all_head (p : ascii -> bool) (a : string) :
  a <> "" -> pystr.all p a = true -> pystr.head_is p a = true.
Proof.
  destruct a as [|c a]; [contradiction|]. simpl.
  intros _ H. apply andb_true_iff in H. tauto.
Qed.
End str_facts.

Module re_facts.
Section greedy.
Context {R : Type} (cls : ascii -> bool) (k : nat -> string -> option R).

(** The longest run is tried first: if the continuation accepts there,
    that is the answer. *)
Lemma star_greedy_longest (run rest : string) (pos : nat) (r : R) :
  pystr.all cls run = true ->
  pystr.head_is cls rest = false ->
  k (pos + String.length run) rest = Some r ->
  re.star_greedy cls pos (run ++ rest) k = Some r.
Proof.
  revert pos. induction run as [|c run IH]; intros pos Hall Hhead Hk.
  - simpl in *. rewrite Nat.add_0_r in Hk.
    destruct rest as [|d rest]; simpl in *; [assumption|].
    rewrite Hhead. assumption.
  - simpl in Hall. apply andb_true_iff in Hall as [Hc Hall].
    simpl. rewrite Hc. rewrite (IH (S pos)); auto.
    simpl in Hk. now rewrite Nat.add_succ_r in Hk.
Qed.

Lemma plus_greedy_longest (run rest : string) (pos : nat) (r : R) :
  run <> "" ->
  pystr.all cls run = true ->
  pystr.head_is cls rest = false ->
  k (pos + String.length run) rest = Some r ->
  re.plus_greedy cls pos (run ++ rest) k = Some r.
Proof.
  destruct run as [|c run]; [contradiction|]. intros _ Hall Hhead Hk.
  simpl in Hall. apply andb_true_iff in Hall as [Hc Hall].
  simpl. rewrite Hc. apply star_greedy_longest; auto.
  simpl in Hk. now rewrite Nat.add_succ_r in Hk.
Qed.

(** If the continuation refuses every place the run can stop at, the
    repetition fails.  [Q] describes those places. *)
Lemma star_greedy_fails (Q : string -> Prop) :
  (forall c s, Q (String c s) -> cls c = true -> Q s) ->
  (forall pos s, Q s -> k pos s = None) ->
  forall s pos, Q s -> re.star_greedy cls pos s k = None.
Proof.
  intros Hstep Hk. induction s as [|c s IH]; intros pos HQ; simpl.
  - auto.
  - destruct (cls c) eqn:Hc; [|auto].
    rewrite IH by eauto. auto.
Qed.

Lemma plus_greedy_fails (Q : string -> Prop) :
  (forall c s, Q (String c s) -> cls c = true -> Q s) ->
  (forall pos s, Q s -> k pos s = None) ->
  forall s pos, Q s -> re.plus_greedy cls pos s k = None.
Proof.
  intros Hstep Hk s pos HQ. destruct s as [|c s]; simpl; [reflexivity|].
  destruct (cls c) eqn:Hc; [|reflexivity].
  eapply star_greedy_fails; eauto.
Qed.

(** If the repetition succeeds, the continuation accepted after some
    run of the class. *)
Lemma star_greedy_inv (s : string) (pos : nat) (r : R) :
  re.star_greedy cls pos s k = Some r ->
  exists run rest, s = run ++ rest /\ pystr.all cls run = true
                   /\ k (pos + String.length run) rest = Some r.
Proof.
  revert pos. induction s as [|c s IH]; intros pos H; simpl in H.
  - exists "", "". rewrite Nat.add_0_r. auto.
  - destruct (cls c) eqn:Hc.
    + destruct (re.star_greedy cls (S pos) s k) eqn:Hs.
      * inversion H; subst. apply IH in Hs as (run & rest & -> & Hall & Hk).
        exists (String c run), rest. simpl. rewrite Hc, Hall.
        rewrite Nat.add_succ_r. auto.
      * exists "", (String c s). rewrite Nat.add_0_r. auto.
    + exists "", (String c s). rewrite Nat.add_0_r. auto.
Qed.

Lemma plus_greedy_inv (s : string) (pos : nat) (r : R) :
  re.plus_greedy cls pos s k = Some r ->
  exists run rest, s = run ++ rest /\ run <> "" /\ pystr.all cls run = true
                   /\ k (pos + String.length run) rest = Some r.
Proof.
  destruct s as [|c s]; simpl; [discriminate|].
  destruct (cls c) eqn:Hc; [|discriminate]. intros H.
  apply star_greedy_inv in H as (run & rest & -> & Hall & Hk).
  exists (String c run), rest. simpl. rewrite Hc, Hall.
  rewrite Nat.add_succ_r. repeat split; auto; discriminate.
Qed.

(** If the continuation accepts wherever it is called, with a result
    that has the property [Pr], the repetition succeeds with such a
    result. *)
Lemma star_greedy_total (Pr : R -> Prop) (s : string) (pos : nat) :
  (forall pos' rest, exists r, k pos' rest = Some r /\ Pr r) ->
  exists r, re.star_greedy cls pos s k = Some r /\ Pr r.
Proof.
  intros Hk. revert pos. induction s as [|c s IH]; intros pos; simpl; auto.
  destruct (cls c); auto.
  destruct (IH (S pos)) as (r & -> & Hr). eauto.
Qed.
End greedy.
End re_facts.
(** ** The classifier [is_url] *)

Section is_url_facts.
Context {P : Platform} (config : Config).

Lemma has_space_contains (u : string) :
  pystr.contains " " u = true <-> has_space u.
Proof. apply pystr_facts.contains_spec. Qed.

Lemma no_space_contains (u : string) :
  ~ has_space u -> pystr.contains " " u = false.
Proof.
  intros H. destruct (pystr.contains " " u) eqn:E; [|reflexivity].
  apply has_space_contains in E. contradiction.
Qed.

Lemma special_prefix_is_special (url : url.url_arg) :
  special_prefix (url.urlstring url) -> url.is_special_url url = true.
Proof.
  intros [r H]. unfold url.is_special_url.
  destruct H as [-> | [-> | [-> | ->]]]; reflexivity.
Qed.

Lemma is_url_naive_spec (url : url.url_arg) :
  url._is_url_naive url = true <-> looks_like_url (url.urlstring url).
Proof.
  unfold url._is_url_naive, looks_like_url, url.PROTOCOLS. cbn [existsb].
  rewrite orb_false_r, !orb_true_iff, !pystr_facts.startswith_spec,
    pystr_facts.contains_spec, String.eqb_eq.
  tauto.
Qed.

(** With autosearch off everything is a URL. *)
Lemma is_url_autosearch_off (url : url.url_arg) (tr : list string) :
  truthy (general_auto_search config) = false ->
  url.is_url config url tr = (Ok true, tr).
Proof. intros H. unfold url.is_url. rewrite H. reflexivity. Qed.

(** With autosearch on, a text with a space is a search term. *)
Lemma is_url_space (url : url.url_arg) (tr : list string) :
  truthy (general_auto_search config) = true ->
  has_space (url.urlstring url) ->
  url.is_url config url tr = (Ok false, tr).
Proof.
  intros Hon Hsp. unfold url.is_url. rewrite Hon. cbn [negb].
  apply has_space_contains in Hsp. rewrite Hsp. reflexivity.
Qed.

(** With autosearch on, a special URL without a space is a URL, before the
    mode is looked at. *)
Lemma is_url_special (url : url.url_arg) (tr : list string) :
  truthy (general_auto_search config) = true ->
  ~ has_space (url.urlstring url) ->
  url.is_special_url url = true ->
  url.is_url config url tr = (Ok true, tr).
Proof.
  intros Hon Hsp Hspecial. unfold url.is_url. rewrite Hon. cbn [negb].
  rewrite (no_space_contains _ Hsp), Hspecial. reflexivity.
Qed.

(** What is left for the mode to decide. *)
Lemma is_url_by_mode (url : url.url_arg) :
  truthy (general_auto_search config) = true ->
  ~ has_space (url.urlstring url) ->
  url.is_special_url url = false ->
  url.is_url config url =
    if eq_str (general_auto_search config) "dns"
    then url._is_url_dns (QUrl_fromUserInput (url.urlstring url))
    else if eq_str (general_auto_search config) "naive"
    then mret (url._is_url_naive url)
    else raise (ValueError "Invalid autosearch value").
Proof.
  intros Hon Hsp Hspecial. unfold url.is_url. rewrite Hon. cbn [negb].
  rewrite (no_space_contains _ Hsp), Hspecial. reflexivity.
Qed.

(** In dns mode a non-empty host is looked up, and the request shows in
    the trace. *)
Lemma is_url_dns_request (url : url.url_arg) (tr : list string) :
  general_auto_search config = PyStr "dns" ->
  ~ has_space (url.urlstring url) ->
  url.is_special_url url = false ->
  let host := QUrl_host (QUrl_fromUserInput (url.urlstring url)) in
  host <> "" ->
  url.is_url config url tr =
    (Ok (match resolver host with Resolved => true | GaiError => false end),
     (tr ++ [host])%list).
Proof.
  intros Hmode Hsp Hspecial host Hhost.
  rewrite is_url_by_mode by (rewrite ?Hmode; auto).
  rewrite Hmode. cbn [eq_str String.eqb Ascii.eqb Bool.eqb].
  unfold url._is_url_dns. fold host.
  destruct (String.eqb_spec host ""); [contradiction|].
  unfold mbind, M_bind, url.socket_gethostbyname.
  destruct (resolver host); reflexivity.
Qed.

End is_url_facts.

Lemma no_space_by_computation (u : string) :
  pystr.contains " " u = false -> ~ has_space u.
Proof.
  intros H Hsp. apply pystr_facts.contains_spec in Hsp. congruence.
Qed.

(** C6, as the specification has it, fails: [about:foo bar] starts with a
    special scheme and autosearch is on, yet the space is looked at first
    and the text is classified as a search term. *)
Lemma special_url_with_space_is_search :
  special_prefix "about:foo bar"
  /\ truthy (general_auto_search ascii_platform.naive_config) = true
  /\ url.is_url (P := ascii_platform.platform) ascii_platform.naive_config
       (url.AsStr "about:foo bar") [] = (Ok false, []).
Proof.
  split; [|split]; [|reflexivity|reflexivity].
  exists "foo bar". left. reflexivity.
Qed.

(** C6, amended: with autosearch on, in whatever mode (even a value that
    names no mode), a text without a space that starts with [about:] or
    [qute:], after an optional [http://], is classified as a URL, and no DNS
    request is made. *)
Theorem special_url_without_space_is_url {P : Platform} (config : Config)
    (url : url.url_arg) (tr : list string) :
  truthy (general_auto_search config) = true ->
  special_prefix (url.urlstring url) ->
  ~ has_space (url.urlstring url) ->
  url.is_url config url tr = (Ok true, tr).
Proof.
  intros Hon Hspecial Hsp.
  apply is_url_special; auto using special_prefix_is_special.
Qed.

Lemma special_url_without_space_is_url_witness :
  url.is_url (P := ascii_platform.platform) bogus_config
    (url.AsStr "http://qute:version") [] = (Ok true, []).
Proof.
  apply (special_url_without_space_is_url (P := ascii_platform.platform)
           bogus_config (url.AsStr "http://qute:version") []).
  - reflexivity.
  - exists "version". right. right. right. reflexivity.
  - apply no_space_by_computation. reflexivity.
Defined.

Lemma is_special_url_spec {P : Platform} (url : url.url_arg) :
  url.is_special_url url = true <-> scheme_name_prefix (url.urlstring url).
Proof.
  unfold url.is_special_url, url._special_schemes, scheme_name_prefix.
  cbn [existsb]. rewrite orb_false_r, orb_true_iff, !pystr_facts.startswith_spec.
  split.
  - intros [[r Hr] | [r Hr]]; exists r; auto.
  - intros [r [Hr | Hr]]; eauto.
Qed.

Lemma not_scheme_name_prefix {P : Platform} (url : url.url_arg) :
  ~ scheme_name_prefix (url.urlstring url) -> url.is_special_url url = false.
Proof.
  intros H. destruct (url.is_special_url url) eqn:E; [|reflexivity].
  apply is_special_url_spec in E. contradiction.
Qed.

Lemma not_special_by_computation (u : string) :
  url.is_special_url (P := ascii_platform.platform) (url.AsStr u) = false ->
  ~ scheme_name_prefix u.
Proof.
  intros H Hs.
  apply (is_special_url_spec (P := ascii_platform.platform) (url.AsStr u)) in Hs.
  congruence.
Qed.

Lemma no_dot_by_computation (u : string) :
  pystr.contains "." u = false -> ~ exists a b, u = a ++ "." ++ b.
Proof. intros H Hd. apply pystr_facts.contains_spec in Hd. congruence. Qed.

(** C7, as the specification has it, fails: [aboutface] has no space, does
    not start with [about:] or [qute:] (with or without [http://]), does not
    start with [http://] or [https://], has no dot and is not [localhost];
    in naive mode it is classified as a URL all the same, because
    [is_special_url] asks for the scheme name only. *)
Lemma scheme_name_without_colon_is_url :
  ~ has_space "aboutface"
  /\ ~ special_prefix "aboutface"
  /\ ~ looks_like_url "aboutface"
  /\ general_auto_search ascii_platform.naive_config = PyStr "naive"
  /\ url.is_url (P := ascii_platform.platform) ascii_platform.naive_config
       (url.AsStr "aboutface") [] = (Ok true, []).
Proof.
  split; [apply no_space_by_computation; reflexivity|].
  split; [intros [r [H | [H | [H | H]]]]; discriminate H|].
  split; [|split; reflexivity].
  intros [[r H] | [[r H] | [H | H]]]; try discriminate H.
  revert H. apply no_dot_by_computation. reflexivity.
Qed.

(** C7, amended: with autosearch on, a text with a space is a search term;
    in naive mode a text without a space that [is_special_url] does not
    accept (with every [http://] taken out it starts with neither [about]
    nor [qute]) is a URL exactly when it starts with [http://] or
    [https://], contains a dot or is [localhost]; a text without a space
    that [is_special_url] accepts is a URL in every mode. *)
Theorem is_url_space_and_naive {P : Platform} (config : Config)
    (url : url.url_arg) (tr : list string) :
  truthy (general_auto_search config) = true ->
  (has_space (url.urlstring url) ->
   url.is_url config url tr = (Ok false, tr))
  /\ (general_auto_search config = PyStr "naive" ->
      ~ has_space (url.urlstring url) ->
      ~ scheme_name_prefix (url.urlstring url) ->
      exists b, url.is_url config url tr = (Ok b, tr)
                /\ (b = true <-> looks_like_url (url.urlstring url)))
  /\ (~ has_space (url.urlstring url) ->
      scheme_name_prefix (url.urlstring url) ->
      url.is_url config url tr = (Ok true, tr)).
Proof.
  intros Hon. split; [|split].
  - intros Hsp. apply is_url_space; assumption.
  - intros Hmode Hsp Hspecial%not_scheme_name_prefix.
    exists (url._is_url_naive url). split.
    + rewrite is_url_by_mode by assumption. rewrite Hmode. reflexivity.
    + apply is_url_naive_spec.
  - intros Hsp Hspecial%is_special_url_spec. apply is_url_special; assumption.
Qed.

Lemma is_url_space_and_naive_witness :
  url.is_url (P := ascii_platform.platform) ascii_platform.naive_config
    (url.AsStr "foo bar") [] = (Ok false, [])
  /\ (exists b,
        url.is_url (P := ascii_platform.platform) ascii_platform.naive_config
          (url.AsStr "example.com") [] = (Ok b, [])
        /\ (b = true <-> looks_like_url "example.com"))
  /\ url.is_url (P := ascii_platform.platform) ascii_platform.naive_config
       (url.AsStr "aboutface") [] = (Ok true, []).
Proof.
  split; [|split].
  - apply (is_url_space_and_naive (P := ascii_platform.platform)
             ascii_platform.naive_config (url.AsStr "foo bar") []).
    + reflexivity.
    + exists "foo", "bar". reflexivity.
  - apply (is_url_space_and_naive (P := ascii_platform.platform)
             ascii_platform.naive_config (url.AsStr "example.com") []).
    + reflexivity.
    + reflexivity.
    + apply no_space_by_computation. reflexivity.
    + apply not_special_by_computation. reflexivity.
  - apply (is_url_space_and_naive (P := ascii_platform.platform)
             ascii_platform.naive_config (url.AsStr "aboutface") []).
    + reflexivity.
    + apply no_space_by_computation. reflexivity.
    + exists "face". left. reflexivity.
Defined.

(** C9, as the specification has it, fails: with the autosearch value
    [bogus] the text [foo bar] is classified as a search term and nothing is
    raised; the space is looked at before the mode. *)
Lemma invalid_mode_with_space_does_not_raise :
  truthy (general_auto_search bogus_config) = true
  /\ general_auto_search bogus_config <> PyStr "dns"
  /\ general_auto_search bogus_config <> PyStr "naive"
  /\ url.is_url (P := ascii_platform.platform) bogus_config
       (url.AsStr "foo bar") [] = (Ok false, []).
Proof. repeat split; try reflexivity; discriminate. Qed.

Lemma eq_str_ne (v : pyvalue) (lit : string) :
  v <> PyStr lit -> eq_str v lit = false.
Proof.
  intros H. destruct v as [| b | s]; try reflexivity. simpl.
  destruct (String.eqb_spec s lit); [subst; contradiction | reflexivity].
Qed.

(** C9, amended: for an autosearch value that is on and is neither [dns]
    nor [naive], the classification raises ValueError for every text that
    has no space and that [is_special_url] does not accept (with every
    [http://] taken out it starts with neither [about] nor [qute]); before
    the mode is looked at, a text with a space is classified as a search
    term and a text without a space that [is_special_url] accepts as a URL,
    and nothing is raised.  No DNS request is made in any of the cases. *)
Theorem invalid_mode_raises {P : Platform} (config : Config)
    (url : url.url_arg) (tr : list string) :
  truthy (general_auto_search config) = true ->
  general_auto_search config <> PyStr "dns" ->
  general_auto_search config <> PyStr "naive" ->
  (has_space (url.urlstring url) ->
   url.is_url config url tr = (Ok false, tr))
  /\ (~ has_space (url.urlstring url) ->
      scheme_name_prefix (url.urlstring url) ->
      url.is_url config url tr = (Ok true, tr))
  /\ (~ has_space (url.urlstring url) ->
      ~ scheme_name_prefix (url.urlstring url) ->
      url.is_url config url tr
      = (Raise (ValueError "Invalid autosearch value"), tr)).
Proof.
  intros Hon Hdns Hnaive. split; [|split].
  - intros Hsp. apply is_url_space; assumption.
  - intros Hsp Hspecial%is_special_url_spec. apply is_url_special; assumption.
  - intros Hsp Hspecial%not_scheme_name_prefix.
    rewrite is_url_by_mode by assumption.
    rewrite (eq_str_ne _ _ Hdns), (eq_str_ne _ _ Hnaive). reflexivity.
Qed.

Lemma invalid_mode_raises_witness :
  url.is_url (P := ascii_platform.platform) bogus_config
    (url.AsStr "foo bar") [] = (Ok false, [])
  /\ url.is_url (P := ascii_platform.platform) bogus_config
       (url.AsStr "aboutface") [] = (Ok true, [])
  /\ url.is_url (P := ascii_platform.platform) bogus_config
       (url.AsStr "example.com") []
     = (Raise (ValueError "Invalid autosearch value"), []).
Proof.
  destruct (invalid_mode_raises (P := ascii_platform.platform) bogus_config
              (url.AsStr "foo bar") [] eq_refl
              ltac:(discriminate) ltac:(discriminate)) as (Hspace & _ & _).
  destruct (invalid_mode_raises (P := ascii_platform.platform) bogus_config
              (url.AsStr "aboutface") [] eq_refl
              ltac:(discriminate) ltac:(discriminate)) as (_ & Hspecial & _).
  destruct (invalid_mode_raises (P := ascii_platform.platform) bogus_config
              (url.AsStr "example.com") [] eq_refl
              ltac:(discriminate) ltac:(discriminate)) as (_ & _ & Hraise).
  split; [|split].
  - apply Hspace. exists "foo", "bar". reflexivity.
  - apply Hspecial.
    + apply no_space_by_computation. reflexivity.
    + exists "face". left. reflexivity.
  - apply Hraise.
    + apply no_space_by_computation. reflexivity.
    + apply not_special_by_computation. reflexivity.
Defined.

(** C10: in dns mode, when the host of the parsed text is empty, the
    classifier answers "search term" and the trace of DNS requests is as it
    was: no resolution was attempted. *)
Theorem dns_mode_empty_host {P : Platform} (config : Config)
    (url : url.url_arg) (tr : list string) :
  general_auto_search config = PyStr "dns" ->
  ~ has_space (url.urlstring url) ->
  url.is_special_url url = false ->
  QUrl_host (QUrl_fromUserInput (url.urlstring url)) = "" ->
  url.is_url config url tr = (Ok false, tr).
Proof.
  intros Hmode Hsp Hspecial Hhost.
  rewrite is_url_by_mode by (rewrite ?Hmode; auto).
  rewrite Hmode. cbn [eq_str String.eqb Ascii.eqb Bool.eqb].
  unfold url._is_url_dns. rewrite Hhost. reflexivity.
Qed.

Lemma dns_mode_empty_host_witness :
  url.is_url (P := ascii_platform.platform) ascii_platform.dns_config
    (url.AsStr "http:///index.html") [] = (Ok false, []).
Proof.
  apply (dns_mode_empty_host (P := ascii_platform.platform)
           ascii_platform.dns_config (url.AsStr "http:///index.html") []).
  - reflexivity.
  - apply no_space_by_computation. reflexivity.
  - reflexivity.
  - reflexivity.
Defined.

(** ** Search expansion and the fallback of [fuzzy_url] *)

Section search_facts.
Context {P : Platform} (config : Config).

(** [_get_search_url] raises ValueError when the engine has no template. *)
Lemma get_search_url_no_template (txt : string) :
  searchengines config !! (url.engine_and_term txt).1 = None ->
  url._get_search_url config txt = Raise (ValueError "Search template is None").
Proof.
  intros H. unfold url._get_search_url.
  destruct (url.engine_and_term txt) as [engine term]. simpl in H.
  rewrite H. reflexivity.
Qed.

(** ... and when the term is empty. *)
Lemma get_search_url_no_term (txt : string) :
  (url.engine_and_term txt).2 = "" ->
  exists msg, url._get_search_url config txt = Raise (ValueError msg).
Proof.
  intros H. unfold url._get_search_url.
  destruct (url.engine_and_term txt) as [engine term]. simpl in H. subst term.
  destruct (searchengines config !! engine); eauto.
Qed.

(** With a template and a term it raises only what [str.format] raises. *)
Lemma get_search_url_expands (txt template : string) :
  searchengines config !! (url.engine_and_term txt).1 = Some template ->
  (url.engine_and_term txt).2 <> "" ->
  url._get_search_url config txt =
    match str_format template (urllib_parse_quote (url.engine_and_term txt).2) with
    | Ok s => Ok (QUrl_fromUserInput s)
    | Raise e => Raise e
    end.
Proof.
  intros Ht Hterm. unfold url._get_search_url.
  destruct (url.engine_and_term txt) as [engine term]. simpl in *.
  rewrite Ht. destruct (String.eqb_spec term ""); [contradiction | reflexivity].
Qed.

(** On the search path a ValueError of the expansion is caught. *)
Lemma fuzzy_url_catches (url : url.url_arg) (tr tr' : list string) (msg : string) :
  url.is_url config (url.AsQUrl (url.qurl url)) tr = (Ok false, tr') ->
  url._get_search_url config (url.urlstring url) = Raise (ValueError msg) ->
  url.fuzzy_url config url tr = (Ok (QUrl_fromUserInput (url.urlstring url)), tr').
Proof.
  intros Hcls Hraise. unfold url.fuzzy_url, mbind, M_bind.
  rewrite Hcls. unfold try_except_ValueError, lift. rewrite Hraise.
  reflexivity.
Qed.

End search_facts.

(** C8: when the classifier has sent the text down the search path and the
    selected engine has no template, or the term left after stripping is
    empty, the expansion raises ValueError, and [fuzzy_url] returns the text
    itself read as a URL. *)
Theorem fuzzy_url_falls_back {P : Platform} (config : Config)
    (url : url.url_arg) (tr tr' : list string) :
  url.is_url config (url.AsQUrl (url.qurl url)) tr = (Ok false, tr') ->
  searchengines config !! (url.engine_and_term (url.urlstring url)).1 = None
  \/ (url.engine_and_term (url.urlstring url)).2 = "" ->
  (exists msg,
     url._get_search_url config (url.urlstring url) = Raise (ValueError msg))
  /\ url.fuzzy_url config url tr
     = (Ok (QUrl_fromUserInput (url.urlstring url)), tr').
Proof.
  intros Hcls Hfail.
  assert (exists msg,
    url._get_search_url config (url.urlstring url) = Raise (ValueError msg))
    as [msg Hmsg].
  { destruct Hfail as [Hnone | Hempty].
    - eexists. apply get_search_url_no_template. exact Hnone.
    - apply get_search_url_no_term. exact Hempty. }
  split; [eauto | eapply fuzzy_url_catches; eauto].
Qed.

Lemma fuzzy_url_falls_back_witness :
  ((exists msg,
      url._get_search_url (P := ascii_platform.platform) no_engines_config "cats"
      = Raise (ValueError msg))
   /\ url.fuzzy_url (P := ascii_platform.platform) no_engines_config
        (url.AsStr "cats") [] = (Ok "http://cats", []))
  /\ ((exists msg,
      url._get_search_url (P := ascii_platform.platform)
        ascii_platform.naive_config "!gg"
      = Raise (ValueError msg))
   /\ url.fuzzy_url (P := ascii_platform.platform) ascii_platform.naive_config
        (url.AsStr "!gg") [] = (Ok "http://!gg", [])).
Proof.
  split.
  - apply (fuzzy_url_falls_back (P := ascii_platform.platform)
             no_engines_config (url.AsStr "cats") [] []).
    + reflexivity.
    + left. reflexivity.
  - apply (fuzzy_url_falls_back (P := ascii_platform.platform)
             ascii_platform.naive_config (url.AsStr "!gg") [] []).
    + reflexivity.
    + right. reflexivity.
Defined.

(** ** The pattern of [_get_search_url] *)

Section search_re_facts.
Context {P : Platform}.
Hypothesis Hbang : re_isspace "!" = false.
Hypothesis Hnl : re_isspace "010" = true.
Hypothesis Hdisj : forall c, re_isspace c = true -> re_isword c = false.



Lemma rmatch_search_re (pos : nat) (rest : string) :
  re.rmatch url.search_re (re.Cursor pos rest ∅) Some =
    match (if Nat.eqb pos 0 then after_group1 pos rest pos rest else None) with
    | Some r => Some r
    | None => re.plus_greedy re_isspace pos rest (after_group1 pos rest)
    end.
Proof. reflexivity. Qed.


Lemma contains_char_cons (x c : ascii) (s : string) :
  pystr.contains (String x "") (String c s)
  = Ascii.eqb x c || pystr.contains (String x "") s.
Proof.
  cbn [pystr.contains]. f_equal.
  destruct (Ascii.eqb_spec x c) as [<-|Hne].
  - apply pystr_facts.prefix_spec. exists s. reflexivity.
  - destruct (String.prefix (String x "") (String c s)) eqn:E; [|reflexivity].
    apply pystr_facts.prefix_spec in E as [r Hr]. inversion Hr. subst. contradiction.
Qed.

Lemma no_bang_cons (c : ascii) (s : string) :
  no_bang (String c s) <-> Ascii.eqb "!" c = false /\ no_bang s.
Proof. unfold no_bang. rewrite contains_char_cons. apply orb_false_iff. Qed.

Lemma no_bang_app (a b : string) : no_bang a -> no_bang b -> no_bang (a ++ b).
Proof.
  intros Ha Hb. induction a as [|c a IH]; simpl; [assumption|].
  apply no_bang_cons in Ha as [Hc Ha]. apply no_bang_cons. auto.
Qed.

Lemma all_space_no_bang (ws : string) :
  pystr.all re_isspace ws = true -> no_bang ws.
Proof.
  induction ws as [|c ws IH]; [reflexivity|]. simpl. intros H.
  apply andb_true_iff in H as [Hc Hws]. apply no_bang_cons. split; [|auto].
  destruct (Ascii.eqb_spec "!" c) as [<-|]; [congruence | reflexivity].
Qed.

(** Without a [!] in front of it the tail of the pattern fails. *)
Lemma tail_needs_bang (pos : nat) (rest : string) (g : gmap nat string)
    (k : re.cursor -> option re.cursor) :
  pystr.head_is (Ascii.eqb "!") rest = false ->
  re.rmatch tail_re (re.Cursor pos rest g) k = None.
Proof.
  intros H. destruct rest as [|c rest]; simpl in *; [reflexivity|].
  rewrite H. reflexivity.
Qed.

Lemma no_bang_head (s : string) :
  no_bang s -> pystr.head_is (Ascii.eqb "!") s = false.
Proof.
  destruct s as [|c s]; [reflexivity|]. intros H.
  apply no_bang_cons in H as [H _]. exact H.
Qed.

(** A text without [!] has no match, wherever the matcher starts. *)
Lemma match_at_no_bang (pos : nat) (s : string) :
  no_bang s -> re.match_at url.search_re pos s = None.
Proof.
  intros H. unfold re.match_at. rewrite rmatch_search_re.
  assert (Hfail : forall pos' s', no_bang s' -> after_group1 pos s pos' s' = None).
  { intros pos' s' H'. apply tail_needs_bang, no_bang_head, H'. }
  rewrite Hfail by assumption.
  rewrite (re_facts.plus_greedy_fails re_isspace _ no_bang); auto.
  - destruct (Nat.eqb pos 0); reflexivity.
  - intros c s' Hs' _. apply no_bang_cons in Hs'. tauto.
Qed.

Lemma at_eol_spec (s : string) :
  re.at_eol s = true <-> s = "" \/ s = String "010" "".
Proof.
  destruct s as [|c [|d s]]; unfold re.at_eol.
  - tauto.
  - destruct (Ascii.eqb_spec c "010") as [->|Hne]; split; auto.
    + discriminate.
    + intros [H|H]; [discriminate | inversion H; contradiction].
  - split; [discriminate | intros [H|H]; discriminate].
Qed.

(** At a marker the tail of the pattern matches: the word is the longest
    run of word characters, the third group the longest run of
    whitespace. *)
Lemma tail_matches (pos : nat) (w ws2 t : string) (g : gmap nat string) :
  w <> "" -> pystr.all re_isword w = true ->
  pystr.all re_isspace ws2 = true ->
  pystr.head_is re_isspace t = false ->
  (ws2 = "" -> t = "") ->
  ws2 ++ t <> String "010" "" ->
  re.rmatch tail_re (re.Cursor pos ("!" ++ w ++ ws2 ++ t) g) Some
  = Some (re.Cursor (pos + 1 + String.length w + String.length ws2) t
            (<[3 := ws2]> (<[2 := w]> g))).
Proof.
  intros Hw Hword Hspace Ht Hend Hlone.
  unfold tail_re. cbn [re.rmatch re.c_rest re.c_pos re.c_groups String.append].
  change (Ascii.eqb "!" "!") with true. cbn iota.
  apply re_facts.plus_greedy_longest; auto.
  { destruct ws2 as [|c ws2].
    - rewrite Hend by reflexivity. reflexivity.
    - simpl in *. apply andb_true_iff in Hspace as [Hc _]. auto. }
  cbn [re.c_pos re.c_rest re.c_groups].
  replace (S pos + String.length w - S pos) with (String.length w) by lia.
  rewrite str_facts.substring_app.
  destruct (re.at_eol (ws2 ++ t)) eqn:Heol.
  - apply at_eol_spec in Heol as [Heol | Heol]; [|contradiction].
    destruct ws2; [|discriminate]. simpl in Heol. subst t.
    rewrite Nat.sub_diag. simpl. f_equal. f_equal. lia.
  - assert (ws2 <> "") as Hws2.
    { intros ->. rewrite Hend in Heol by reflexivity. discriminate. }
    apply re_facts.plus_greedy_longest; auto.
    replace (S pos + String.length w + String.length ws2
             - (S pos + String.length w)) with (String.length ws2) by lia.
    rewrite str_facts.substring_app. f_equal. f_equal. lia.
Qed.

(** The match at a marker: optional whitespace before it (none only at
    the very start of the text), the marker, the whitespace after it. *)
Lemma match_at_marker (pos : nat) (ws1 w ws2 t : string) :
  (ws1 = "" -> pos = 0) ->
  pystr.all re_isspace ws1 = true ->
  w <> "" -> pystr.all re_isword w = true ->
  pystr.all re_isspace ws2 = true ->
  pystr.head_is re_isspace t = false ->
  (ws2 = "" -> t = "") ->
  ws2 ++ t <> String "010" "" ->
  re.match_at url.search_re pos (ws1 ++ "!" ++ w ++ ws2 ++ t)
  = Some (re.Match pos
            (pos + String.length ws1 + 1 + String.length w + String.length ws2)
            (<[3 := ws2]> (<[2 := w]> (<[1 := ws1]> ∅)))).
Proof.
  intros Hstart Hws1 Hw Hword Hws2 Ht Hend Hlone.
  unfold re.match_at. rewrite rmatch_search_re.
  destruct ws1 as [|c ws1].
  - rewrite Hstart by reflexivity. cbn [Nat.eqb]. unfold after_group1.
    cbn [String.append]. change (String "!" (w ++ ws2 ++ t)) with ("!" ++ w ++ ws2 ++ t).
    rewrite tail_matches by assumption. cbn [re.c_pos re.c_groups].
    destruct (w ++ ws2 ++ t); reflexivity.
  - assert (after_group1 pos (String c ws1 ++ "!" ++ w ++ ws2 ++ t) pos
              (String c ws1 ++ "!" ++ w ++ ws2 ++ t) = None) as ->.
    { apply tail_needs_bang. cbn [String.append pystr.head_is].
      simpl in Hws1. apply andb_true_iff in Hws1 as [Hc _].
      destruct (Ascii.eqb_spec "!" c) as [<-|]; [congruence | reflexivity]. }
    assert (re.plus_greedy re_isspace pos (String c ws1 ++ "!" ++ w ++ ws2 ++ t)
              (after_group1 pos (String c ws1 ++ "!" ++ w ++ ws2 ++ t))
            = Some (re.Cursor
                      (pos + String.length (String c ws1) + 1 + String.length w
                       + String.length ws2) t
                      (<[3 := ws2]> (<[2 := w]> (<[1 := String c ws1]> ∅))))) as ->.
    { apply re_facts.plus_greedy_longest;
        [discriminate | assumption | exact Hbang |].
      unfold after_group1.
      replace (pos + String.length (String c ws1) - pos)
        with (String.length (String c ws1)) by lia.
      rewrite str_facts.substring_app. apply tail_matches; assumption. }
    destruct (Nat.eqb pos 0); reflexivity.
Qed.

(** No match starts inside a stretch of text that has no [!] and does not
    end in whitespace. *)
Lemma match_at_before_marker (pos : nat) (pre s0 : string) :
  pre <> "" -> no_bang pre -> pystr.last_is re_isspace pre = false ->
  re.match_at url.search_re pos (pre ++ s0) = None.
Proof.
  intros Hne Hnb Hlast. unfold re.match_at. rewrite rmatch_search_re.
  set (Q := fun s => exists p, s = p ++ s0 /\ p <> ""
                       /\ no_bang p /\ pystr.last_is re_isspace p = false).
  assert (HQ : Q (pre ++ s0)) by (exists pre; auto).
  assert (Hfail : forall pos0 rest0 pos' s', Q s' -> after_group1 pos0 rest0 pos' s' = None).
  { intros pos0 rest0 pos' s' (p & -> & Hp & Hpb & _). apply tail_needs_bang.
    destruct p as [|c p]; [contradiction|]. cbn [String.append pystr.head_is].
    apply no_bang_cons in Hpb. tauto. }
  rewrite Hfail by assumption.
  rewrite (re_facts.plus_greedy_fails re_isspace _ Q); auto.
  - destruct (Nat.eqb pos 0); reflexivity.
  - intros c s (p & Hs & Hp & Hpb & Hpl) Hc.
    destruct p as [|d p]; [contradiction|]. simpl in Hs. inversion Hs; subst.
    apply no_bang_cons in Hpb as [_ Hpb].
    destruct p as [|e p]; [simpl in Hpl; congruence|].
    exists (String e p). repeat split; auto; discriminate.
Qed.

Lemma search_from_hit (p : re.pattern) (pos : nat) (s : string) (m : re.match_obj) :
  re.match_at p pos s = Some m -> re.search_from p pos s = Some m.
Proof. intros H. destruct s; cbn [re.search_from]; rewrite H; reflexivity. Qed.

Lemma search_from_miss (p : re.pattern) (pos : nat) (c : ascii) (s : string) :
  re.match_at p pos (String c s) = None ->
  re.search_from p pos (String c s) = re.search_from p (S pos) s.
Proof. intros H. cbn [re.search_from]. rewrite H. reflexivity. Qed.

Lemma sub_from_miss (p : re.pattern) (repl : string) (pos : nat)
    (c : ascii) (s : string) :
  re.match_at p pos (String c s) = None ->
  re.sub_from p repl 0 pos (String c s)
  = String c (re.sub_from p repl 0 (S pos) s).
Proof. intros H. cbn [re.sub_from]. rewrite H. reflexivity. Qed.

Lemma sub_from_skip (p : re.pattern) (repl : string) (a b : string) (pos : nat) :
  re.sub_from p repl (String.length a) pos (a ++ b)
  = re.sub_from p repl 0 (pos + String.length a) b.
Proof.
  revert pos. induction a as [|c a IH]; intros pos.
  - cbn [String.length String.append]. now rewrite Nat.add_0_r.
  - cbn [String.length String.append re.sub_from]. rewrite IH.
    now rewrite Nat.add_succ_r.
Qed.

(** [sub] at a match: the replacement, then on behind the match. *)
Lemma sub_from_hit (p : re.pattern) (repl : string) (pos : nat)
    (a b : string) (m : re.match_obj) :
  a <> "" ->
  re.match_at p pos (a ++ b) = Some m ->
  re.m_end m = pos + String.length a ->
  re.sub_from p repl 0 pos (a ++ b)
  = repl ++ re.sub_from p repl 0 (pos + String.length a) b.
Proof.
  intros Ha Hm Hend. destruct a as [|c a]; [contradiction|].
  cbn [String.append] in *. cbn [re.sub_from]. rewrite Hm, Hend.
  cbn [String.length].
  replace (pos + S (String.length a) - pos) with (S (String.length a)) by lia.
  rewrite sub_from_skip. now rewrite Nat.add_succ_r.
Qed.


Lemma plain_prefix_tail (c : ascii) (pre : string) :
  plain_prefix (String c pre) -> plain_prefix pre.
Proof.
  intros [Hnb Hlast]. apply no_bang_cons in Hnb as [_ Hnb]. split; [assumption|].
  destruct pre as [|d pre]; [left; reflexivity | right].
  destruct Hlast as [Hlast | Hlast]; [discriminate | exact Hlast].
Qed.

Lemma plain_prefix_no_match (c : ascii) (pre s0 : string) (pos : nat) :
  plain_prefix (String c pre) ->
  re.match_at url.search_re pos (String c (pre ++ s0)) = None.
Proof.
  intros [Hnb [Hlast | Hlast]]; [discriminate|].
  apply (match_at_before_marker pos (String c pre) s0); auto; discriminate.
Qed.

Lemma search_skips_prefix (pre s0 : string) (pos : nat) :
  plain_prefix pre ->
  re.search_from url.search_re pos (pre ++ s0)
  = re.search_from url.search_re (pos + String.length pre) s0.
Proof.
  revert pos. induction pre as [|c pre IH]; intros pos Hpre.
  - cbn [String.length String.append]. now rewrite Nat.add_0_r.
  - cbn [String.length String.append].
    rewrite search_from_miss by (apply plain_prefix_no_match; exact Hpre).
    rewrite IH by (eapply plain_prefix_tail; eauto).
    now rewrite Nat.add_succ_r.
Qed.

Lemma sub_copies_prefix (pre s0 : string) (pos : nat) :
  plain_prefix pre ->
  re.sub_from url.search_re "" 0 pos (pre ++ s0)
  = pre ++ re.sub_from url.search_re "" 0 (pos + String.length pre) s0.
Proof.
  revert pos. induction pre as [|c pre IH]; intros pos Hpre.
  - cbn [String.length String.append]. now rewrite Nat.add_0_r.
  - cbn [String.length String.append].
    rewrite sub_from_miss by (apply plain_prefix_no_match; exact Hpre).
    rewrite IH by (eapply plain_prefix_tail; eauto).
    now rewrite Nat.add_succ_r.
Qed.

Lemma sub_copies_no_bang (t : string) (pos : nat) :
  no_bang t -> re.sub_from url.search_re "" 0 pos t = t.
Proof.
  revert pos. induction t as [|c t IH]; intros pos Hnb.
  - cbn [re.sub_from]. rewrite match_at_no_bang by assumption. reflexivity.
  - rewrite sub_from_miss by (apply match_at_no_bang; assumption).
    apply no_bang_cons in Hnb as [_ Hnb]. now rewrite IH.
Qed.

(** The engine and the term of a text with one marker. *)
Lemma engine_and_term_marker (pre ws1 w ws2 t : string) :
  plain_prefix pre ->
  (ws1 = "" -> pre = "") ->
  pystr.all re_isspace ws1 = true ->
  w <> "" -> pystr.all re_isword w = true ->
  pystr.all re_isspace ws2 = true ->
  (ws2 = "" -> t = "") ->
  ws2 ++ t <> String "010" "" ->
  pystr.head_is re_isspace t = false ->
  no_bang t ->
  url.engine_and_term (pre ++ ws1 ++ "!" ++ w ++ ws2 ++ t) = (w, pre ++ t).
Proof.
  intros Hpre Hstart Hws1 Hw Hword Hws2 Hend Hlone Ht Hnb.
  assert (Hm := match_at_marker (0 + String.length pre) ws1 w ws2 t).
  rewrite Nat.add_0_l in Hm at 1.
  specialize (Hm ltac:(intros ->%Hstart; reflexivity)
                 Hws1 Hw Hword Hws2 Ht Hend Hlone).
  unfold url.engine_and_term, re.search, re.sub.
  rewrite search_skips_prefix by assumption.
  rewrite (search_from_hit _ _ _ _ Hm).
  unfold re.group. cbn [re.m_groups].
  rewrite lookup_insert_ne, lookup_insert_eq by discriminate.
  cbn [default]. f_equal.
  rewrite sub_copies_prefix by assumption. f_equal.
  replace (ws1 ++ "!" ++ w ++ ws2 ++ t) with ((ws1 ++ "!" ++ w ++ ws2) ++ t) in *
    by (rewrite !str_facts.app_assoc; reflexivity).
  erewrite sub_from_hit; [| | exact Hm |].
  - cbn [String.append]. apply sub_copies_no_bang. assumption.
  - destruct ws1; discriminate.
  - cbn [re.m_end]. rewrite !str_facts.length_app. cbn [String.length]. lia.
Qed.




Lemma at_eol_bounded (b : string) : re.at_eol b = true -> bounded_right b.
Proof.
  intros [-> | ->]%at_eol_spec; [left; reflexivity | right; exact Hnl].
Qed.

Lemma bounded_right_not_word (b : string) :
  bounded_right b -> pystr.head_is re_isword b = false.
Proof.
  intros [-> | H]; [reflexivity|]. destruct b as [|c b]; [discriminate|].
  simpl in *. apply Hdisj, H.
Qed.

(** What the tail of the pattern accepts has the shape of a marker, and
    its second group is the word. *)
Lemma tail_inv (pos : nat) (v : string) (g : gmap nat string) (cur : re.cursor) :
  re.rmatch tail_re (re.Cursor pos v g) Some = Some cur ->
  exists w b, v = "!" ++ w ++ b /\ w <> "" /\ pystr.all re_isword w = true
              /\ bounded_right b /\ re.c_groups cur !! 2 = Some w.
Proof.
  unfold tail_re. cbn [re.rmatch re.c_rest re.c_pos re.c_groups].
  destruct v as [|c v]; [discriminate|].
  destruct (Ascii.eqb_spec "!" c) as [<-|]; [|discriminate].
  intros H. apply re_facts.plus_greedy_inv in H as (w & b & -> & Hw & Hword & H).
  cbn [re.c_pos re.c_rest re.c_groups] in H.
  replace (S pos + String.length w - S pos) with (String.length w) in H by lia.
  rewrite str_facts.substring_app in H.
  exists w, b. repeat split; auto.
  - destruct (re.at_eol b) eqn:Heol; [apply at_eol_bounded; assumption|].
    apply re_facts.plus_greedy_inv in H as (ws & rest & -> & Hws & Hspace & _).
    right. destruct ws as [|d ws]; [contradiction|].
    simpl in Hspace. apply andb_true_iff in Hspace. tauto.
  - destruct (re.at_eol b) eqn:Heol.
    + inversion H; subst. cbn [re.c_groups].
      rewrite lookup_insert_ne, lookup_insert_eq by discriminate. reflexivity.
    + apply re_facts.plus_greedy_inv in H as (ws & rest & -> & _ & _ & H).
      inversion H; subst. cbn [re.c_groups].
      rewrite lookup_insert_ne, lookup_insert_eq by discriminate. reflexivity.
Qed.

(** ... and at every marker the tail of the pattern accepts. *)
Lemma tail_accepts (pos : nat) (w b : string) (g : gmap nat string) :
  w <> "" -> pystr.all re_isword w = true -> bounded_right b ->
  exists cur, re.rmatch tail_re (re.Cursor pos ("!" ++ w ++ b) g) Some = Some cur
              /\ re.c_groups cur !! 2 = Some w.
Proof.
  intros Hw Hword Hb.
  unfold tail_re. cbn [re.rmatch re.c_rest re.c_pos re.c_groups String.append].
  change (Ascii.eqb "!" "!") with true. cbn iota.
  assert (Hgroup : forall (x : string) (n : nat) (y : string),
    (<[3 := y]> (<[2 := x]> g) : gmap nat string) !! 2 = Some x).
  { intros. rewrite lookup_insert_ne, lookup_insert_eq by discriminate. reflexivity. }
  destruct (re.at_eol b) eqn:Heol.
  - eexists. split.
    + apply re_facts.plus_greedy_longest; auto using bounded_right_not_word.
      cbn [re.c_pos re.c_rest re.c_groups]. rewrite Heol. reflexivity.
    + cbn [re.c_groups].
      replace (S pos + String.length w - S pos) with (String.length w) by lia.
      rewrite str_facts.substring_app. apply Hgroup. exact 0.
  - destruct b as [|c b]; [discriminate|].
    destruct Hb as [Hb | Hb]; [discriminate|]. simpl in Hb.
    destruct (re_facts.star_greedy_total re_isspace
      (fun pos0 rest0 =>
         Some (re.Cursor pos0 rest0
           (<[3 := substring 0 (pos0 - (S pos + String.length w)) (String c b)]>
              (<[2 := w]> g))))
      (fun cur => re.c_groups cur !! 2 = Some w) b
      (S (S pos + String.length w))) as (cur & Hcur & Hcur2).
    { intros pos' rest. eexists. split; [reflexivity|]. apply Hgroup. exact 0. }
    exists cur. split; [|assumption].
    apply re_facts.plus_greedy_longest; auto.
    { simpl. auto. }
    cbn [re.c_pos re.c_rest re.c_groups]. rewrite Heol.
    replace (S pos + String.length w - S pos) with (String.length w) by lia.
    rewrite str_facts.substring_app.
    simpl. rewrite Hb. exact Hcur.
Qed.


Lemma match_at_inv (pos : nat) (v : string) (m : re.match_obj) :
  re.match_at url.search_re pos v = Some m ->
  exists ws1 w b, match_shape pos v ws1 w b /\ re.group m 2 = Some w.
Proof.
  unfold re.match_at. rewrite rmatch_search_re. intros H.
  destruct (if Nat.eqb pos 0 then after_group1 pos v pos v else None) as [cur|] eqn:Hbol.
  - destruct (Nat.eqb_spec pos 0) as [->|]; [|discriminate].
    unfold after_group1 in Hbol.
    apply tail_inv in Hbol as (w & b & -> & Hw & Hword & Hb & Hg).
    inversion H; subst. exists "", w, b. unfold match_shape. repeat split; auto.
  - destruct (re.plus_greedy re_isspace pos v (after_group1 pos v)) as [cur|] eqn:Hplus;
      [|discriminate].
    apply re_facts.plus_greedy_inv in Hplus as (ws1 & rest & -> & Hws1 & Hspace & Hk).
    unfold after_group1 in Hk.
    apply tail_inv in Hk as (w & b & -> & Hw & Hword & Hb & Hg).
    inversion H; subst. exists ws1, w, b. unfold match_shape.
    repeat split; auto. intros ->. contradiction.
Qed.

Lemma match_at_accepts (pos : nat) (v ws1 w b : string) :
  match_shape pos v ws1 w b ->
  exists m, re.match_at url.search_re pos v = Some m /\ re.group m 2 = Some w.
Proof.
  intros (-> & Hspace & Hstart & Hw & Hword & Hb).
  unfold re.match_at. rewrite rmatch_search_re.
  destruct ws1 as [|c ws1].
  - rewrite Hstart by reflexivity. cbn [Nat.eqb String.append]. unfold after_group1.
    destruct (tail_accepts 0 w b (<[1 := substring 0 (0 - 0) (String "!" (w ++ b))]> ∅)
                Hw Hword Hb) as (cur & Hcur & Hg).
    change ("!" ++ w ++ b) with (String "!" (w ++ b)) in Hcur. rewrite Hcur.
    eexists. split; [reflexivity | exact Hg].
  - assert (after_group1 pos (String c ws1 ++ "!" ++ w ++ b) pos
              (String c ws1 ++ "!" ++ w ++ b) = None) as ->.
    { apply tail_needs_bang. cbn [String.append pystr.head_is].
      simpl in Hspace. apply andb_true_iff in Hspace as [Hc _].
      destruct (Ascii.eqb_spec "!" c) as [<-|]; [congruence | reflexivity]. }
    destruct (tail_accepts (pos + String.length (String c ws1)) w b
                (<[1 := String c ws1]> ∅) Hw Hword Hb) as (cur & Hcur & Hg).
    assert (re.plus_greedy re_isspace pos (String c ws1 ++ "!" ++ w ++ b)
              (after_group1 pos (String c ws1 ++ "!" ++ w ++ b)) = Some cur) as ->.
    { apply re_facts.plus_greedy_longest;
        [discriminate | assumption | exact Hbang |].
      unfold after_group1.
      replace (pos + String.length (String c ws1) - pos)
        with (String.length (String c ws1)) by lia.
      rewrite str_facts.substring_app. exact Hcur. }
    exists (re.Match pos (re.c_pos cur) (re.c_groups cur)).
    split; [destruct (Nat.eqb pos 0); reflexivity | exact Hg].
Qed.


Lemma search_from_inv (p : re.pattern) (v : string) (pos : nat) (m : re.match_obj) :
  re.search_from p pos v = Some m ->
  exists u1 u2, v = u1 ++ u2 /\ re.match_at p (pos + String.length u1) u2 = Some m.
Proof.
  revert pos. induction v as [|c v IH]; intros pos H; cbn [re.search_from] in H.
  - destruct (re.match_at p pos "") eqn:E; [|discriminate].
    exists "", "". rewrite Nat.add_0_r. split; [reflexivity | congruence].
  - destruct (re.match_at p pos (String c v)) eqn:E.
    + exists "", (String c v). rewrite Nat.add_0_r. split; [reflexivity | congruence].
    + apply IH in H as (u1 & u2 & -> & H).
      exists (String c u1), u2. split; [reflexivity|].
      cbn [String.length]. now rewrite Nat.add_succ_r.
Qed.

(** A match further on means the search stops there or before. *)
Lemma search_from_first (p : re.pattern) (u v : string) (pos : nat)
    (m0 : re.match_obj) :
  re.match_at p (pos + String.length u) v = Some m0 ->
  exists m u1 u2, u = u1 ++ u2
    /\ re.search_from p pos (u ++ v) = Some m
    /\ re.match_at p (pos + String.length u1) (u2 ++ v) = Some m.
Proof.
  revert pos. induction u as [|c u IH]; intros pos H.
  - cbn [String.length] in H. rewrite Nat.add_0_r in H.
    exists m0, "", "". cbn [String.append String.length]. rewrite Nat.add_0_r.
    auto using search_from_hit.
  - destruct (re.match_at p pos (String c u ++ v)) as [m|] eqn:E.
    + exists m, "", (String c u). cbn [String.append String.length] in *.
      rewrite Nat.add_0_r. auto using search_from_hit.
    + cbn [String.length] in H. rewrite Nat.add_succ_r in H.
      apply (IH (S pos)) in H as (m & u1 & u2 & -> & Hs & Hm).
      exists m, (String c u1), u2. cbn [String.append String.length] in *.
      rewrite search_from_miss by assumption.
      rewrite Nat.add_succ_r. auto.
Qed.

Lemma last_is_app (p : ascii -> bool) (a b : string) :
  b <> "" -> pystr.last_is p (a ++ b) = pystr.last_is p b.
Proof.
  intros Hb. induction a as [|c a IH]; [reflexivity|].
  cbn [String.append pystr.last_is]. rewrite IH.
  destruct (a ++ b) eqn:E; [|reflexivity].
  destruct a; [simpl in E; contradiction | discriminate].
Qed.

Lemma all_last (p : ascii -> bool) (a : string) :
  a <> "" -> pystr.all p a = true -> pystr.last_is p a = true.
Proof.
  induction a as [|c a IH]; [contradiction|]. intros _ H.
  simpl in H. apply andb_true_iff in H as [Hc Ha].
  destruct a as [|d a]; [exact Hc|].
  cbn [pystr.last_is]. apply IH; [discriminate | assumption].
Qed.

Lemma all_app (p : ascii -> bool) (a b : string) :
  pystr.all p (a ++ b) = pystr.all p a && pystr.all p b.
Proof.
  induction a as [|c a IH]; [reflexivity|]. simpl. now rewrite IH, andb_assoc.
Qed.

Lemma last_is_snoc (p : ascii -> bool) (a : string) :
  pystr.last_is p a = true ->
  exists a1 c, a = a1 ++ String c "" /\ p c = true.
Proof.
  induction a as [|c a IH]; [discriminate|]. intros H.
  destruct a as [|d a].
  - exists "", c. auto.
  - destruct (IH H) as (a1 & e & -> & He). exists (String c a1), e. auto.
Qed.

Lemma app_split (x y x' y' : string) :
  x ++ y = x' ++ y' -> String.length x <= String.length x' ->
  exists z, x' = x ++ z /\ y = z ++ y'.
Proof.
  revert x'. induction x as [|c x IH]; intros x' H Hlen.
  - exists x'. auto.
  - destruct x' as [|c' x']; [simpl in Hlen; lia|].
    cbn [String.append] in H. inversion H; subst.
    simpl in Hlen. destruct (IH x' ltac:(assumption) ltac:(lia)) as (z & -> & ->).
    exists z. auto.
Qed.

Lemma length_zero (s : string) : String.length s = 0 -> s = "".
Proof. destruct s; [reflexivity | discriminate]. Qed.

(** The word behind a [!] is determined by the text. *)
Lemma word_unique (w b w' b' : string) :
  w ++ b = w' ++ b' ->
  pystr.all re_isword w = true -> pystr.all re_isword w' = true ->
  bounded_right b -> bounded_right b' -> w = w'.
Proof.
  revert w'. induction w as [|c w IH]; intros w' H Hw Hw' Hb Hb'.
  - destruct w' as [|c' w']; [reflexivity|]. cbn [String.append] in H. subst b.
    apply bounded_right_not_word in Hb. simpl in Hb, Hw'.
    apply andb_true_iff in Hw' as [Hc' _]. congruence.
  - destruct w' as [|c' w'].
    + cbn [String.append] in H. subst b'.
      apply bounded_right_not_word in Hb'. simpl in Hb', Hw.
      apply andb_true_iff in Hw as [Hc _]. congruence.
    + cbn [String.append] in H. inversion H; subst.
      simpl in Hw, Hw'. apply andb_true_iff in Hw as [_ Hw].
      apply andb_true_iff in Hw' as [_ Hw']. f_equal. eauto.
Qed.

Lemma shape_to_marker (u1 v ws1 w b : string) :
  match_shape (String.length u1) v ws1 w b -> marker (u1 ++ v) (u1 ++ ws1) w b.
Proof.
  intros (-> & Hspace & Hstart & Hw & Hword & Hb). unfold marker.
  rewrite str_facts.app_assoc. repeat split; auto.
  destruct ws1 as [|c ws1].
  - left. rewrite (length_zero u1) by auto. reflexivity.
  - right. rewrite last_is_app by discriminate. apply all_last; [discriminate | assumption].
Qed.

Lemma marker_to_shape (txt a w b : string) :
  marker txt a w b ->
  exists u ws1, a = u ++ ws1 /\ match_shape (String.length u) (ws1 ++ "!" ++ w ++ b) ws1 w b.
Proof.
  intros (-> & Ha & Hw & Hword & Hb). destruct Ha as [-> | Ha].
  - exists "", "". unfold match_shape. repeat split; auto.
  - apply last_is_snoc in Ha as (a1 & c & -> & Hc). exists a1, (String c "").
    unfold match_shape. repeat split; auto; [simpl; now rewrite Hc | discriminate].
Qed.

(** Without a marker the pattern is found nowhere. *)
Lemma search_without_marker (txt : string) :
  (forall a w b, ~ marker txt a w b) -> re.search url.search_re txt = None.
Proof.
  intros Hno. unfold re.search.
  destruct (re.search_from url.search_re 0 txt) as [m|] eqn:E; [|reflexivity].
  apply search_from_inv in E as (u1 & u2 & -> & E).
  apply match_at_inv in E as (ws1 & w & b & Hshape & _).
  apply shape_to_marker in Hshape. exfalso. eapply Hno; eauto.
Qed.

(** The search finds the first marker, and the second group is its word. *)
Lemma search_first_marker (txt a w b : string) :
  marker txt a w b ->
  (forall a' w' b', marker txt a' w' b' -> String.length a <= String.length a') ->
  exists m, re.search url.search_re txt = Some m /\ re.group m 2 = Some w.
Proof.
  intros Hmk Hfirst.
  destruct (marker_to_shape _ _ _ _ Hmk) as (u & ws1 & Ha & Hshape).
  assert (Htxt : txt = u ++ ws1 ++ "!" ++ w ++ b).
  { destruct Hmk as (-> & _). rewrite Ha. apply str_facts.app_assoc. }
  destruct (match_at_accepts _ _ _ _ _ Hshape) as (m0 & Hm0 & _).
  destruct (search_from_first url.search_re u _ 0 m0 Hm0)
    as (m & u1 & u2 & Hu & Hsearch & Hm).
  exists m. split; [unfold re.search; rewrite Htxt; exact Hsearch|].
  cbn [Nat.add] in Hm.
  apply match_at_inv in Hm as (ws1' & w' & b' & Hshape' & Hg).
  rewrite Hg. f_equal.
  assert (Hmk' : marker txt (u1 ++ ws1') w' b').
  { rewrite Htxt, Hu, str_facts.app_assoc. apply shape_to_marker, Hshape'. }
  apply Hfirst in Hmk'. rewrite Ha, Hu, !str_facts.length_app in Hmk'.
  destruct Hshape' as (Heq & Hspace' & _ & _ & Hword' & Hb').
  destruct Hshape as (_ & _ & _ & _ & Hword & Hb).
  rewrite <- str_facts.app_assoc in Heq.
  apply app_split in Heq as (z & -> & Heq);
    [|rewrite str_facts.length_app; lia].
  rewrite all_app in Hspace'. apply andb_true_iff in Hspace' as [_ Hz].
  destruct z as [|d z].
  - cbn [String.append] in Heq. inversion Heq.
    symmetry. eapply word_unique; eauto.
  - cbn [String.append] in Heq. inversion Heq; subst d.
    simpl in Hz. rewrite Hbang in Hz. discriminate.
Qed.

End search_re_facts.

(** ** A text with exactly one marker *)

Lemma app_inv_head (u a b : string) : u ++ a = u ++ b -> a = b.
Proof.
  induction u as [|c u IH]; cbn [String.append]; intros H; [exact H|].
  injection H as H. auto.
Qed.

Lemma app_eq_empty (a b : string) : a ++ b = "" -> a = "" /\ b = "".
Proof. destruct a; cbn [String.append]; intros H; [auto | discriminate]. Qed.

Lemma search_skips_gen (p : re.pattern) (pre s0 : string) (pos : nat) :
  (forall u v, pre = u ++ v -> v <> "" ->
               re.match_at p (pos + String.length u) (v ++ s0) = None) ->
  re.search_from p pos (pre ++ s0)
  = re.search_from p (pos + String.length pre) s0.
Proof.
  revert pos. induction pre as [|c pre IH]; intros pos H.
  - cbn [String.length String.append]. now rewrite Nat.add_0_r.
  - cbn [String.length String.append].
    rewrite search_from_miss.
    + rewrite IH; [now rewrite Nat.add_succ_r|].
      intros u v -> Hv. specialize (H (String c u) v eq_refl Hv).
      cbn [String.length] in H. now rewrite Nat.add_succ_r in H.
    + specialize (H "" (String c pre) eq_refl ltac:(discriminate)).
      cbn [String.length String.append] in H. now rewrite Nat.add_0_r in H.
Qed.

Lemma sub_copies_gen (p : re.pattern) (pre s0 : string) (pos : nat) :
  (forall u v, pre = u ++ v -> v <> "" ->
               re.match_at p (pos + String.length u) (v ++ s0) = None) ->
  re.sub_from p "" 0 pos (pre ++ s0)
  = pre ++ re.sub_from p "" 0 (pos + String.length pre) s0.
Proof.
  revert pos. induction pre as [|c pre IH]; intros pos H.
  - cbn [String.length String.append]. now rewrite Nat.add_0_r.
  - cbn [String.length String.append].
    rewrite sub_from_miss.
    + rewrite IH; [now rewrite Nat.add_succ_r|].
      intros u v -> Hv. specialize (H (String c u) v eq_refl Hv).
      cbn [String.length] in H. now rewrite Nat.add_succ_r in H.
    + specialize (H "" (String c pre) eq_refl ltac:(discriminate)).
      cbn [String.length String.append] in H. now rewrite Nat.add_0_r in H.
Qed.

Lemma sub_copies_all (p : re.pattern) (r : string) (pos : nat) :
  (forall u v, r = u ++ v -> re.match_at p (pos + String.length u) v = None) ->
  re.sub_from p "" 0 pos r = r.
Proof.
  revert pos. induction r as [|c r IH]; intros pos H.
  - cbn [re.sub_from].
    specialize (H "" "" eq_refl). cbn [String.length] in H.
    rewrite Nat.add_0_r in H. rewrite H. reflexivity.
  - rewrite sub_from_miss.
    + f_equal. apply IH. intros u v -> .
      specialize (H (String c u) v eq_refl).
      cbn [String.length] in H. now rewrite Nat.add_succ_r in H.
    + specialize (H "" (String c r) eq_refl). cbn [String.length] in H.
      now rewrite Nat.add_0_r in H.
Qed.

(** The engine and the term when the search stops at a match [M] with
    nothing matching in front of it or behind it. *)
Lemma engine_and_term_at_match {P : Platform} (pre M r w : string)
    (m : re.match_obj) :
  (forall u v, pre = u ++ v -> v <> "" ->
     re.match_at url.search_re (String.length u) (v ++ M ++ r) = None) ->
  M <> "" ->
  re.match_at url.search_re (String.length pre) (M ++ r) = Some m ->
  re.m_end m = String.length pre + String.length M ->
  re.group m 2 = Some w ->
  (forall u v, r = u ++ v ->
     re.match_at url.search_re
       (String.length pre + String.length M + String.length u) v = None) ->
  url.engine_and_term (pre ++ M ++ r) = (w, pre ++ r).
Proof.
  intros Hbefore HM Hm Hend Hg Hafter.
  unfold url.engine_and_term, re.search, re.sub.
  rewrite search_skips_gen by exact Hbefore. cbn [Nat.add].
  rewrite (search_from_hit _ _ _ _ Hm), Hg. cbn [default]. f_equal.
  rewrite sub_copies_gen by exact Hbefore. cbn [Nat.add]. f_equal.
  rewrite (sub_from_hit _ _ _ _ _ _ HM Hm Hend). cbn [String.append].
  apply sub_copies_all. exact Hafter.
Qed.

Section sole_marker_facts.
Context {P : Platform}.
Hypothesis Hbang : re_isspace "!" = false.
Hypothesis Hnl : re_isspace "010" = true.
Hypothesis Hdisj : forall c, re_isspace c = true -> re_isword c = false.

(** Before a final newline [$] matches: the tail of the pattern stops in
    front of the newline, the third group is empty. *)
Lemma tail_before_newline (pos : nat) (w : string) (g : gmap nat string) :
  w <> "" -> pystr.all re_isword w = true ->
  re.rmatch tail_re (re.Cursor pos ("!" ++ w ++ String "010" "") g) Some
  = Some (re.Cursor (pos + 1 + String.length w) (String "010" "")
            (<[3 := ""]> (<[2 := w]> g))).
Proof.
  intros Hw Hword.
  unfold tail_re. cbn [re.rmatch re.c_rest re.c_pos re.c_groups String.append].
  change (Ascii.eqb "!" "!") with true. cbn iota.
  apply re_facts.plus_greedy_longest; auto.
  { cbn [pystr.head_is]. apply Hdisj, Hnl. }
  cbn [re.c_pos re.c_rest re.c_groups].
  replace (S pos + String.length w - S pos) with (String.length w) by lia.
  rewrite str_facts.substring_app.
  change (re.at_eol (String "010" "")) with true. cbn iota.
  rewrite Nat.sub_diag. cbn [substring]. f_equal. f_equal. lia.
Qed.

Lemma match_at_marker_newline (pos : nat) (ws1 w : string) :
  (ws1 = "" -> pos = 0) ->
  pystr.all re_isspace ws1 = true ->
  w <> "" -> pystr.all re_isword w = true ->
  re.match_at url.search_re pos (ws1 ++ "!" ++ w ++ String "010" "")
  = Some (re.Match pos (pos + String.length ws1 + 1 + String.length w)
            (<[3 := ""]> (<[2 := w]> (<[1 := ws1]> ∅)))).
Proof.
  intros Hstart Hws1 Hw Hword.
  unfold re.match_at. rewrite rmatch_search_re.
  destruct ws1 as [|c ws1].
  - rewrite Hstart by reflexivity. cbn [Nat.eqb]. unfold after_group1.
    cbn [String.append].
    change (String "!" (w ++ String "010" "")) with ("!" ++ w ++ String "010" "").
    rewrite tail_before_newline by assumption. cbn [re.c_pos re.c_groups].
    destruct (w ++ String "010" ""); reflexivity.
  - assert (after_group1 pos (String c ws1 ++ "!" ++ w ++ String "010" "") pos
              (String c ws1 ++ "!" ++ w ++ String "010" "") = None) as ->.
    { apply tail_needs_bang. cbn [String.append pystr.head_is].
      simpl in Hws1. apply andb_true_iff in Hws1 as [Hc _].
      destruct (Ascii.eqb_spec "!" c) as [<-|]; [congruence | reflexivity]. }
    assert (re.plus_greedy re_isspace pos
              (String c ws1 ++ "!" ++ w ++ String "010" "")
              (after_group1 pos (String c ws1 ++ "!" ++ w ++ String "010" ""))
            = Some (re.Cursor
                      (pos + String.length (String c ws1) + 1 + String.length w)
                      (String "010" "")
                      (<[3 := ""]> (<[2 := w]> (<[1 := String c ws1]> ∅))))) as ->.
    { apply re_facts.plus_greedy_longest;
        [discriminate | assumption | exact Hbang |].
      unfold after_group1.
      replace (pos + String.length (String c ws1) - pos)
        with (String.length (String c ws1)) by lia.
      rewrite str_facts.substring_app. apply tail_before_newline; assumption. }
    destruct (Nat.eqb pos 0); reflexivity.
Qed.

(** If the text is a single newline, the whitespace is the newline and
    nothing follows. *)
Lemma lone_newline (ws2 t : string) :
  (ws2 = "" -> t = "") -> ws2 ++ t = String "010" "" ->
  ws2 = String "010" "" /\ t = "".
Proof.
  intros Hend H. destruct ws2 as [|c ws2].
  - rewrite Hend in H by reflexivity. discriminate.
  - cbn [String.append] in H. injection H as -> H.
    apply app_eq_empty in H as [-> ->]. auto.
Qed.

Lemma engine_and_term_sole (pre ws1 w ws2 t : string) :
  sole_marker pre ws1 w ws2 t ->
  url.engine_and_term (pre ++ ws1 ++ "!" ++ w ++ ws2 ++ t)
  = (w, pre ++ behind_marker ws2 t).
Proof.
  intros ((_ & Hleft & Hw & Hword & Hright) & Huniq & Hws1 & Hpre & Hws2 & Ht).
  assert (Hstart : ws1 = "" -> pre = "").
  { intros ->. rewrite str_facts.app_empty_r in Hleft.
    destruct Hleft as [? | Hl]; [assumption|].
    destruct Hpre as [? | Hp]; [assumption | congruence]. }
  assert (Hend : ws2 = "" -> t = "").
  { intros ->. cbn [String.append] in Hright.
    destruct Hright as [? | Hr]; [assumption | congruence]. }
  set (txt := pre ++ ws1 ++ "!" ++ w ++ ws2 ++ t) in *.
  (* nothing matches in front of the whitespace before the marker *)
  assert (Hbefore : forall u v, pre = u ++ v -> v <> "" ->
            re.match_at url.search_re (String.length u)
              (v ++ ws1 ++ "!" ++ w ++ ws2 ++ t) = None).
  { intros u v Hpre' Hv.
    destruct (re.match_at url.search_re (String.length u)
                (v ++ ws1 ++ "!" ++ w ++ ws2 ++ t)) as [m|] eqn:E; [|reflexivity].
    exfalso. apply (match_at_inv Hnl) in E as (ws1' & w' & b' & Hshape & _).
    pose proof Hshape as (_ & Hspace' & _).
    apply shape_to_marker in Hshape.
    replace (u ++ v ++ ws1 ++ "!" ++ w ++ ws2 ++ t) with txt in Hshape
      by (unfold txt; rewrite Hpre', str_facts.app_assoc; reflexivity).
    apply Huniq in Hshape. rewrite Hpre', str_facts.app_assoc in Hshape.
    apply app_inv_head in Hshape. subst ws1'.
    rewrite all_app in Hspace'. apply andb_true_iff in Hspace' as [Hvs _].
    apply (all_last _ _ Hv) in Hvs.
    rewrite <- (last_is_app _ u v Hv), <- Hpre' in Hvs.
    destruct Hpre as [Hp | Hp]; [|congruence].
    rewrite Hp in Hpre'. symmetry in Hpre'.
    apply app_eq_empty in Hpre' as [_ ?]. contradiction. }
  (* nothing matches behind the marker *)
  assert (Hafter : forall U r, txt = U ++ r ->
            String.length (pre ++ ws1) < String.length U ->
            forall u v, r = u ++ v ->
              re.match_at url.search_re
                (String.length U + String.length u) v = None).
  { intros U r Htxt Hlen u v Hr.
    destruct (re.match_at url.search_re
                (String.length U + String.length u) v) as [m|] eqn:E;
      [|reflexivity].
    exfalso. rewrite <- str_facts.length_app in E.
    apply (match_at_inv Hnl) in E as (ws1' & w' & b' & Hshape & _).
    apply shape_to_marker in Hshape.
    replace ((U ++ u) ++ v) with txt in Hshape
      by (rewrite Htxt, Hr, str_facts.app_assoc; reflexivity).
    apply Huniq in Hshape.
    apply (f_equal String.length) in Hshape.
    rewrite !str_facts.length_app in *. lia. }
  unfold behind_marker.
  destruct (String.eqb_spec (ws2 ++ t) (String "010" "")) as [Hlone | Hlone].
  - destruct (lone_newline ws2 t Hend Hlone) as [-> ->].
    pose proof (match_at_marker_newline (String.length pre) ws1 w) as Hm.
    specialize (Hm ltac:(intros E; rewrite (Hstart E); reflexivity) Hws1 Hw Hword).
    replace txt with (pre ++ (ws1 ++ "!" ++ w) ++ String "010" "")
      by (unfold txt; rewrite !str_facts.app_assoc; reflexivity).
    replace (ws1 ++ "!" ++ w ++ String "010" "")
      with ((ws1 ++ "!" ++ w) ++ String "010" "") in Hm
      by (rewrite !str_facts.app_assoc; reflexivity).
    eapply engine_and_term_at_match; [| | exact Hm | | |].
    + intros u v Hu Hv. specialize (Hbefore u v Hu Hv).
      cbn [String.append] in Hbefore |- *.
      rewrite !str_facts.app_assoc. cbn [String.append]. exact Hbefore.
    + destruct ws1; discriminate.
    + cbn [re.m_end]. rewrite !str_facts.length_app. cbn [String.length]. lia.
    + unfold re.group. cbn [re.m_groups].
      rewrite lookup_insert_ne, lookup_insert_eq by discriminate. reflexivity.
    + intros u v Hr. rewrite <- str_facts.length_app.
      apply (Hafter (pre ++ ws1 ++ "!" ++ w) (String "010" "")); auto.
      * unfold txt. cbn [String.append]. rewrite !str_facts.app_assoc.
        reflexivity.
      * rewrite !str_facts.length_app. cbn [String.length]. lia.
  - pose proof (match_at_marker Hbang Hdisj (String.length pre) ws1 w ws2 t) as Hm.
    specialize (Hm ltac:(intros E; rewrite (Hstart E); reflexivity)
                   Hws1 Hw Hword Hws2 Ht Hend Hlone).
    replace txt with (pre ++ (ws1 ++ "!" ++ w ++ ws2) ++ t)
      by (unfold txt; rewrite !str_facts.app_assoc; reflexivity).
    replace (ws1 ++ "!" ++ w ++ ws2 ++ t)
      with ((ws1 ++ "!" ++ w ++ ws2) ++ t) in Hm
      by (rewrite !str_facts.app_assoc; reflexivity).
    eapply engine_and_term_at_match; [| | exact Hm | | |].
    + intros u v Hu Hv. specialize (Hbefore u v Hu Hv).
      rewrite !str_facts.app_assoc. exact Hbefore.
    + destruct ws1; discriminate.
    + cbn [re.m_end]. rewrite !str_facts.length_app. cbn [String.length]. lia.
    + unfold re.group. cbn [re.m_groups].
      rewrite lookup_insert_ne, lookup_insert_eq by discriminate. reflexivity.
    + intros u v Hr. rewrite <- str_facts.length_app.
      apply (Hafter (pre ++ ws1 ++ "!" ++ w ++ ws2) t); auto.
      * unfold txt. rewrite !str_facts.app_assoc. reflexivity.
      * rewrite !str_facts.length_app. cbn [String.length]. lia.
Qed.

End sole_marker_facts.

(** The tables of the platform the examples run on are in order. *)
Lemma ascii_tables_ok : tables_ok (P := ascii_platform.platform).
Proof.
  split; [reflexivity | split; [reflexivity|]].
  intros [[] [] [] [] [] [] [] []]; vm_compute; congruence.
Qed.

(** take the first character off [a] in an equation between a literal and
    [a ++ ...] *)
Ltac peel a H :=
  destruct a as [|? a]; cbn [String.append] in H;
  [try discriminate H | injection H as ? H; subst].

Lemma cats_gg_first_marker :
  first_marker (P := ascii_platform.platform) "cats !gg" "cats " "gg" "".
Proof.
  split.
  - repeat split; [right; reflexivity | discriminate | left; reflexivity].
  - intros a w b (H & _). do 5 (peel a H). cbn [String.length]. lia.
Qed.

Lemma g_x_cats_no_marker (a w b : string) :
  ~ marker (P := ascii_platform.platform) "!g-x cats" a w b.
Proof.
  intros (H & _ & Hw & Hword & Hb). peel a H.
  - injection H as H. peel w H; [contradiction|]. peel w H.
    + subst b. destruct Hb as [Hb | Hb]; [discriminate | vm_compute in Hb; discriminate].
    + vm_compute in Hword. discriminate.
  - repeat (peel a H). destruct a; discriminate.
Qed.

(** look for a marker in a literal text: take the first character off [a]
    in the equation [H] between the text and [a ++ "!" ++ ...]; where the
    text goes on with [!], the claim holds or [a] is not bounded *)
Ltac scan a H Hl :=
  destruct a as [|? a]; cbn [String.append] in H;
  [ first [ discriminate H | reflexivity
          | exfalso; destruct Hl as [Hl | Hl];
            [discriminate Hl | vm_compute in Hl; discriminate Hl] ]
  | injection H as ? H; subst ].

(** [a!b !gg c] has one marker, [!gg]: the [!] inside [a!b] makes none *)
Lemma a_b_gg_c_sole_marker :
  sole_marker (P := ascii_platform.platform) "a!b" " " "gg" " " "c".
Proof.
  split; [|split].
  - repeat split; [right; reflexivity | discriminate | right; reflexivity].
  - intros a w b (H & Hl & _). cbn [String.append] in H.
    repeat (scan a H Hl). destruct a; discriminate H.
  - repeat split. right. reflexivity.
Qed.

Lemma foo_gg_bar_sole_marker :
  sole_marker (P := ascii_platform.platform) "foo" " " "gg" " " "bar".
Proof.
  split; [|split].
  - repeat split; [right; reflexivity | discriminate | right; reflexivity].
  - intros a w b (H & Hl & _). cbn [String.append] in H.
    repeat (scan a H Hl). destruct a; discriminate H.
  - repeat split. right. reflexivity.
Qed.

(** [cats !gg] and a final newline: one marker, the newline behind it *)
Lemma cats_gg_newline_sole_marker :
  sole_marker (P := ascii_platform.platform) "cats" " " "gg" (String "010" "") "".
Proof.
  split; [|split].
  - repeat split; [right; reflexivity | discriminate | right; reflexivity].
  - intros a w b (H & Hl & _). cbn [String.append] in H.
    repeat (scan a H Hl). destruct a; discriminate H.
  - repeat split. right. reflexivity.
Qed.

(** C5, as the specification has it, fails: in [!g-x cats] the token
    [!g-x] is a [!] followed by characters that are not whitespace, at the
    start of the text and followed by a space; yet no engine [g-x] is
    selected, the DEFAULT template is used and the whole text is the
    term. *)
Lemma marker_of_other_characters_is_not_found :
  claimed_marker (P := ascii_platform.platform) "!g-x cats" "" "g-x" " cats"
  /\ url.engine_and_term (P := ascii_platform.platform) "!g-x cats"
     = ("DEFAULT", "!g-x cats").
Proof.
  split; [|reflexivity].
  repeat split; [left; reflexivity | discriminate | right; reflexivity].
Qed.

(** C5, amended: the text is scanned for a marker [!w] where [w] is one or
    more word characters ([\w]: letters, digits, underscore), with the start
    of the text or whitespace in front and the end of the text or whitespace
    behind.  The word of the first marker selects the engine; without a
    marker the key is DEFAULT and the term the whole text; and for a text
    with exactly one marker the term is the text without the marker and
    without all the whitespace around it, except that a single final newline
    directly behind the marker stays in the term. *)
Theorem marker_of_word_characters_selects_engine {P : Platform} :
  tables_ok ->
  (forall txt a w b, first_marker txt a w b -> (url.engine_and_term txt).1 = w)
  /\ (forall txt, (forall a w b, ~ marker txt a w b) ->
                  url.engine_and_term txt = ("DEFAULT", txt))
  /\ (forall pre ws1 w ws2 t, sole_marker pre ws1 w ws2 t ->
        url.engine_and_term (pre ++ ws1 ++ "!" ++ w ++ ws2 ++ t)
        = (w, pre ++ behind_marker ws2 t)).
Proof.
  intros (Hbang & Hnl & Hdisj). split; [|split].
  - intros txt a w b [Hmk Hfirst].
    destruct (search_first_marker Hbang Hnl Hdisj txt a w b Hmk Hfirst)
      as (m & Hm & Hg).
    unfold url.engine_and_term. rewrite Hm, Hg. reflexivity.
  - intros txt Hno. unfold url.engine_and_term.
    rewrite (search_without_marker Hnl txt Hno). reflexivity.
  - intros pre ws1 w ws2 t Hsole.
    apply engine_and_term_sole; assumption.
Qed.

Lemma marker_of_word_characters_selects_engine_witness :
  (url.engine_and_term (P := ascii_platform.platform) "cats !gg").1 = "gg"
  /\ url.engine_and_term (P := ascii_platform.platform) "!g-x cats"
     = ("DEFAULT", "!g-x cats")
  /\ url.engine_and_term (P := ascii_platform.platform) "a!b !gg c"
     = ("gg", "a!bc")
  /\ url.engine_and_term (P := ascii_platform.platform)
       ("cats !gg" ++ String "010" "")
     = ("gg", "cats" ++ String "010" "").
Proof.
  destruct (marker_of_word_characters_selects_engine
              (P := ascii_platform.platform) ascii_tables_ok) as (A & B & C).
  split; [|split; [|split]].
  - apply (A "cats !gg" "cats " "gg" ""). exact cats_gg_first_marker.
  - apply (B "!g-x cats"). exact g_x_cats_no_marker.
  - apply (C "a!b" " " "gg" " " "c"). exact a_b_gg_c_sole_marker.
  - apply (C "cats" " " "gg" (String "010" "") ""). exact cats_gg_newline_sole_marker.
Defined.

(** ** More about the classifier and the search expansion *)

(** In dns mode, for a text without a space that is not special and whose
    host is not empty, the resolver is asked once, for that host, and the
    text is a URL exactly when the host resolves. *)
Theorem dns_mode_asks_resolver {P : Platform} (config : Config)
    (url : url.url_arg) (tr : list string) :
  general_auto_search config = PyStr "dns" ->
  ~ has_space (url.urlstring url) ->
  url.is_special_url url = false ->
  QUrl_host (QUrl_fromUserInput (url.urlstring url)) <> "" ->
  url.is_url config url tr
  = (Ok (match resolver (QUrl_host (QUrl_fromUserInput (url.urlstring url))) with
         | Resolved => true
         | GaiError => false
         end),
     (tr ++ [QUrl_host (QUrl_fromUserInput (url.urlstring url))])%list).
Proof. intros Hmode Hsp Hspecial Hhost. apply is_url_dns_request; assumption. Qed.

Lemma dns_mode_asks_resolver_witness :
  url.is_url (P := ascii_platform.platform) ascii_platform.dns_config
    (url.AsStr "example.com") ["earlier.example"]
  = (Ok true, ["earlier.example"; "example.com"])
  /\ url.is_url (P := ascii_platform.platform) ascii_platform.dns_config
       (url.AsStr "nosuchhost") []
     = (Ok false, ["nosuchhost"]).
Proof.
  split.
  - apply (dns_mode_asks_resolver (P := ascii_platform.platform)
             ascii_platform.dns_config (url.AsStr "example.com")
             ["earlier.example"]).
    + reflexivity.
    + apply no_space_by_computation. reflexivity.
    + reflexivity.
    + discriminate.
  - apply (dns_mode_asks_resolver (P := ascii_platform.platform)
             ascii_platform.dns_config (url.AsStr "nosuchhost") []).
    + reflexivity.
    + apply no_space_by_computation. reflexivity.
    + reflexivity.
    + discriminate.
Defined.

(** What [is_url] can do to the trace of DNS requests. *)
Lemma is_url_trace_cases {P : Platform} (config : Config)
    (url : url.url_arg) (tr : list string) :
  (url.is_url config url tr).2 = tr
  \/ (eq_str (general_auto_search config) "dns" = true
      /\ ~ has_space (url.urlstring url)
      /\ url.is_special_url url = false
      /\ QUrl_host (QUrl_fromUserInput (url.urlstring url)) <> ""
      /\ (url.is_url config url tr).2
         = (tr ++ [QUrl_host (QUrl_fromUserInput (url.urlstring url))])%list).
Proof.
  unfold url.is_url.
  destruct (truthy (general_auto_search config)); cbn [negb]; [|left; reflexivity].
  destruct (pystr.contains " " (url.urlstring url)) eqn:Hsp; [left; reflexivity|].
  destruct (url.is_special_url url) eqn:Hspecial; [left; reflexivity|].
  destruct (eq_str (general_auto_search config) "dns") eqn:Hdns.
  - unfold url._is_url_dns.
    destruct (String.eqb_spec (QUrl_host (QUrl_fromUserInput (url.urlstring url))) "")
      as [Hhost | Hhost]; [left; reflexivity|].
    right. repeat split; auto using no_space_by_computation.
    unfold mbind, M_bind, url.socket_gethostbyname.
    destruct (resolver _); reflexivity.
  - destruct (eq_str (general_auto_search config) "naive"); left; reflexivity.
Qed.

(** [is_url] makes at most one DNS request, and none unless the mode is
    [dns] and the text has no space, is not special and has a host. *)
Theorem is_url_requests_dns_only_in_dns_mode {P : Platform} (config : Config)
    (url : url.url_arg) (tr : list string) :
  (url.is_url config url tr).2 = tr
  \/ (eq_str (general_auto_search config) "dns" = true
      /\ ~ has_space (url.urlstring url)
      /\ url.is_special_url url = false
      /\ QUrl_host (QUrl_fromUserInput (url.urlstring url)) <> ""
      /\ (url.is_url config url tr).2
         = (tr ++ [QUrl_host (QUrl_fromUserInput (url.urlstring url))])%list).
Proof. apply is_url_trace_cases. Qed.

(** [fuzzy_url] adds no DNS request to those of the classification. *)
Lemma fuzzy_url_trace {P : Platform} (config : Config)
    (url : url.url_arg) (tr : list string) :
  (url.fuzzy_url config url tr).2
  = (url.is_url config (url.AsQUrl (url.qurl url)) tr).2.
Proof.
  unfold url.fuzzy_url, mbind, M_bind.
  destruct (url.is_url config (url.AsQUrl (url.qurl url)) tr) as [[[|]|e] tr'];
    try reflexivity.
  unfold try_except_ValueError, lift.
  destruct (url._get_search_url config (url.urlstring url)) as [q|e];
    [reflexivity|]. destruct (isinstance_ValueError e); reflexivity.
Qed.

(** [fuzzy_url] makes at most one DNS request, for the host of the text as
    the QUrl renders it, and none unless the mode is [dns]: the search
    expansion and the fallback never touch the resolver. *)
Theorem fuzzy_url_requests_dns_only_in_dns_mode {P : Platform} (config : Config)
    (url : url.url_arg) (tr : list string) :
  (url.fuzzy_url config url tr).2 = tr
  \/ (eq_str (general_auto_search config) "dns" = true
      /\ (url.fuzzy_url config url tr).2
         = (tr ++ [QUrl_host (QUrl_fromUserInput
                                (QUrl_toString (url.qurl url)))])%list).
Proof.
  rewrite fuzzy_url_trace.
  destruct (is_url_trace_cases config (url.AsQUrl (url.qurl url)) tr)
    as [H | (Hdns & _ & _ & _ & H)]; [left | right]; auto.
Qed.

(** With autosearch off [fuzzy_url] reads every text as a URL: no search
    engine is consulted and no DNS request made, whatever the text. *)
Theorem fuzzy_url_autosearch_off {P : Platform} (config : Config)
    (url : url.url_arg) (tr : list string) :
  truthy (general_auto_search config) = false ->
  url.fuzzy_url config url tr = (Ok (QUrl_fromUserInput (url.urlstring url)), tr).
Proof.
  intros Hoff. unfold url.fuzzy_url, mbind, M_bind.
  rewrite is_url_autosearch_off by assumption. reflexivity.
Qed.

Lemma fuzzy_url_autosearch_off_witness :
  url.fuzzy_url (P := ascii_platform.platform) off_config
    (url.AsStr "!gg cats and dogs") []
  = (Ok "http://!gg cats and dogs", []).
Proof.
  apply (fuzzy_url_autosearch_off (P := ascii_platform.platform) off_config
           (url.AsStr "!gg cats and dogs") []).
  reflexivity.
Defined.

(** The ValueError of an invalid autosearch value is raised outside the
    [try] of [fuzzy_url]: it is not caught, [fuzzy_url] raises it. *)
Theorem fuzzy_url_invalid_mode_raises {P : Platform} (config : Config)
    (url : url.url_arg) (tr : list string) :
  truthy (general_auto_search config) = true ->
  general_auto_search config <> PyStr "dns" ->
  general_auto_search config <> PyStr "naive" ->
  ~ has_space (QUrl_toString (url.qurl url)) ->
  url.is_special_url (url.AsQUrl (url.qurl url)) = false ->
  url.fuzzy_url config url tr
  = (Raise (ValueError "Invalid autosearch value"), tr).
Proof.
  intros Hon Hdns Hnaive Hsp Hspecial. unfold url.fuzzy_url, mbind, M_bind.
  rewrite is_url_by_mode by assumption.
  rewrite (eq_str_ne _ _ Hdns), (eq_str_ne _ _ Hnaive). reflexivity.
Qed.

Lemma fuzzy_url_invalid_mode_raises_witness :
  url.fuzzy_url (P := ascii_platform.platform) bogus_config
    (url.AsStr "example.com") []
  = (Raise (ValueError "Invalid autosearch value"), []).
Proof.
  apply (fuzzy_url_invalid_mode_raises (P := ascii_platform.platform)
           bogus_config (url.AsStr "example.com") []).
  - reflexivity.
  - discriminate.
  - discriminate.
  - apply no_space_by_computation. reflexivity.
  - reflexivity.
Defined.

(** On the search path [fuzzy_url] catches what is a ValueError and falls
    back to the text; any other exception of the expansion (an IndexError or
    KeyError of [template.format]) is raised by [fuzzy_url]. *)
Theorem fuzzy_url_catches_only_ValueError {P : Platform} (config : Config)
    (url : url.url_arg) (tr tr' : list string) (e : exn) :
  url.is_url config (url.AsQUrl (url.qurl url)) tr = (Ok false, tr') ->
  url._get_search_url config (url.urlstring url) = Raise e ->
  url.fuzzy_url config url tr
  = if isinstance_ValueError e
    then (Ok (QUrl_fromUserInput (url.urlstring url)), tr')
    else (Raise e, tr').
Proof.
  intros Hcls Hraise. unfold url.fuzzy_url, mbind, M_bind. rewrite Hcls.
  unfold try_except_ValueError, lift. rewrite Hraise.
  destruct (isinstance_ValueError e); reflexivity.
Qed.

Lemma fuzzy_url_catches_only_ValueError_witness :
  url.fuzzy_url (P := indexing_platform) second_argument_config
    (url.AsStr "cats") []
  = (Raise (IndexError "tuple index out of range"), []).
Proof.
  apply (fuzzy_url_catches_only_ValueError (P := indexing_platform)
           second_argument_config (url.AsStr "cats") [] []
           (IndexError "tuple index out of range")).
  - reflexivity.
  - reflexivity.
Defined.

Lemma about_is_special {P : Platform} (r : string) :
  url.is_special_url (url.AsStr ("about" ++ r)) = true.
Proof.
  unfold url.is_special_url, url._special_schemes. cbn [existsb].
  apply orb_true_iff. left. apply pystr_facts.startswith_spec.
  eexists. reflexivity.
Qed.

Lemma qute_is_special {P : Platform} (r : string) :
  url.is_special_url (url.AsStr ("qute" ++ r)) = true.
Proof.
  unfold url.is_special_url, url._special_schemes. cbn [existsb].
  apply orb_true_iff. right. apply orb_true_iff. left.
  apply pystr_facts.startswith_spec. eexists. reflexivity.
Qed.

Lemma replace_leading_http (r : string) :
  pystr.replace "http://" "" ("http://" ++ r) = pystr.replace "http://" "" r.
Proof.
  assert (Hp : String.prefix "http://" ("http://" ++ r) = true)
    by (apply pystr_facts.prefix_spec; eexists; reflexivity).
  unfold pystr.replace. cbn [String.append pystr.replace_scan] in *.
  rewrite Hp. reflexivity.
Qed.

(** A scheme name is enough to be special, with or without a colon, and a
    leading [http://] is looked through: with autosearch on, a text without
    a space that starts with [about] or [qute] is a URL in every mode. *)
Theorem scheme_name_prefix_is_special {P : Platform} (config : Config)
    (r : string) (tr : list string) :
  truthy (general_auto_search config) = true ->
  (~ has_space ("about" ++ r) ->
   url.is_url config (url.AsStr ("about" ++ r)) tr = (Ok true, tr))
  /\ (~ has_space ("qute" ++ r) ->
      url.is_url config (url.AsStr ("qute" ++ r)) tr = (Ok true, tr))
  /\ url.is_special_url (url.AsStr ("http://" ++ r))
     = url.is_special_url (url.AsStr r).
Proof.
  intros Hon. split; [|split].
  - intros Hsp. apply is_url_special; auto using about_is_special.
  - intros Hsp. apply is_url_special; auto using qute_is_special.
  - unfold url.is_special_url. cbn [url.urlstring].
    rewrite replace_leading_http. reflexivity.
Qed.

Lemma scheme_name_prefix_is_special_witness :
  url.is_url (P := ascii_platform.platform) ascii_platform.naive_config
    (url.AsStr "aboutface") [] = (Ok true, [])
  /\ url.is_url (P := ascii_platform.platform) ascii_platform.naive_config
       (url.AsStr "quterie") [] = (Ok true, []).
Proof.
  destruct (scheme_name_prefix_is_special (P := ascii_platform.platform)
              ascii_platform.naive_config "face" [] eq_refl) as (Ha & _ & _).
  destruct (scheme_name_prefix_is_special (P := ascii_platform.platform)
              ascii_platform.naive_config "rie" [] eq_refl) as (_ & Hq & _).
  split.
  - apply Ha. apply no_space_by_computation. reflexivity.
  - apply Hq. apply no_space_by_computation. reflexivity.
Defined.

(** ** More about the engine marker and the term *)

Lemma search_no_bang {P : Platform} (s : string) (pos : nat) :
  no_bang s -> re.search_from url.search_re pos s = None.
Proof.
  revert pos. induction s as [|c s IH]; intros pos Hnb.
  - cbn [re.search_from]. rewrite match_at_no_bang by assumption. reflexivity.
  - rewrite search_from_miss by (apply match_at_no_bang; assumption).
    apply no_bang_cons in Hnb as [_ Hnb]. apply IH. exact Hnb.
Qed.

Lemma engine_and_term_no_bang {P : Platform} (txt : string) :
  no_bang txt -> url.engine_and_term txt = ("DEFAULT", txt).
Proof.
  intros Hnb. unfold url.engine_and_term, re.search.
  rewrite search_no_bang by assumption. reflexivity.
Qed.

(** A non-empty text without [!] is searched for with the DEFAULT engine:
    the result is the DEFAULT template filled with the quoted text, whole
    (its spaces included), and an exception of [template.format] is the
    only one possible. *)
Theorem plain_text_uses_default_engine {P : Platform} (config : Config)
    (txt template : string) :
  no_bang txt -> txt <> "" ->
  searchengines config !! "DEFAULT" = Some template ->
  url._get_search_url config txt = expand template txt.
Proof.
  intros Hnb Hne Ht. pose proof (engine_and_term_no_bang txt Hnb) as He.
  rewrite (get_search_url_expands config txt template);
    rewrite He; auto.
Qed.

Lemma plain_text_uses_default_engine_witness :
  url._get_search_url (P := ascii_platform.platform) ascii_platform.naive_config
    "cats and dogs"
  = Ok "http://search.example/?q=cats%20and%20dogs".
Proof.
  apply (plain_text_uses_default_engine (P := ascii_platform.platform)
           ascii_platform.naive_config "cats and dogs"
           "http://search.example/?q={}").
  - reflexivity.
  - discriminate.
  - reflexivity.
Defined.

(** A text with exactly one marker [!w] is searched for with the engine
    [w]: the result is the template of [w] filled with the quoted rest of
    the text, the marker and all the whitespace around it taken out (a
    single final newline directly behind the marker stays).  Other [!] in
    the text, which make no marker, stay in the term. *)
Theorem marked_text_uses_named_engine {P : Platform} (config : Config)
    (pre ws1 w ws2 t template : string) :
  tables_ok ->
  sole_marker pre ws1 w ws2 t ->
  pre ++ behind_marker ws2 t <> "" ->
  searchengines config !! w = Some template ->
  url._get_search_url config (pre ++ ws1 ++ "!" ++ w ++ ws2 ++ t)
  = expand template (pre ++ behind_marker ws2 t).
Proof.
  intros (Hbang & Hnl & Hdisj) Hsole Hterm Htemplate.
  pose proof (engine_and_term_sole Hbang Hnl Hdisj pre ws1 w ws2 t Hsole) as He.
  rewrite (get_search_url_expands config _ template); rewrite He; auto.
Qed.

Lemma marked_text_uses_named_engine_witness :
  url._get_search_url (P := ascii_platform.platform) ascii_platform.naive_config
    "foo !gg bar"
  = Ok "http://gg.example/?q=foobar".
Proof.
  apply (marked_text_uses_named_engine (P := ascii_platform.platform)
           ascii_platform.naive_config "foo" " " "gg" " " "bar"
           "http://gg.example/?q={}").
  - exact ascii_tables_ok.
  - exact foo_gg_bar_sole_marker.
  - discriminate.
  - reflexivity.
Defined.

(** A text that is nothing but a marker, with or without whitespace around
    it, has no term left: [_get_search_url] raises ValueError, whether the
    engine is configured or not. *)
Theorem marker_without_term_raises {P : Platform} (config : Config)
    (ws1 w ws2 : string) :
  tables_ok ->
  pystr.all re_isspace ws1 = true ->
  w <> "" -> pystr.all re_isword w = true ->
  pystr.all re_isspace ws2 = true ->
  ws2 <> String "010" "" ->
  exists msg,
    url._get_search_url config (ws1 ++ "!" ++ w ++ ws2) = Raise (ValueError msg).
Proof.
  intros (Hbang & Hnl & Hdisj) Hws1 Hw Hword Hws2 Hlone.
  apply get_search_url_no_term.
  assert (He : url.engine_and_term ("" ++ ws1 ++ "!" ++ w ++ ws2 ++ "")
               = (w, "" ++ "")).
  { apply engine_and_term_marker; auto.
    - split; [reflexivity | left; reflexivity].
    - rewrite str_facts.app_empty_r. exact Hlone.
    - reflexivity. }
  rewrite str_facts.app_empty_r in He.
  change (url.engine_and_term (ws1 ++ "!" ++ w ++ ws2) = (w, "")) in He.
  rewrite He. reflexivity.
Qed.

Lemma marker_without_term_raises_witness :
  exists msg,
    url._get_search_url (P := ascii_platform.platform)
      ascii_platform.naive_config (" " ++ "!" ++ "gg" ++ "  ")
    = Raise (ValueError msg).
Proof.
  apply (marker_without_term_raises (P := ascii_platform.platform)
           ascii_platform.naive_config " " "gg" "  ").
  - exact ascii_tables_ok.
  - reflexivity.
  - discriminate.
  - reflexivity.
  - reflexivity.
  - discriminate.
Defined.

(** The engine key is DEFAULT or the word of a marker of the text: never
    empty, and made of word characters only. *)
Theorem engine_is_default_or_marker_word {P : Platform} (txt : string) :
  tables_ok ->
  (url.engine_and_term txt).1 = "DEFAULT"
  \/ exists a b, marker txt a (url.engine_and_term txt).1 b.
Proof.
  intros (Hbang & Hnl & Hdisj). unfold url.engine_and_term, re.search.
  destruct (re.search_from url.search_re 0 txt) as [m|] eqn:E; [|left; reflexivity].
  right. apply search_from_inv in E as (u1 & u2 & -> & E).
  apply (match_at_inv Hnl) in E as (ws1 & w & b & Hshape & Hg).
  rewrite Hg. cbn [fst default]. exists (u1 ++ ws1), b.
  apply shape_to_marker. exact Hshape.
Qed.

Lemma engine_is_default_or_marker_word_witness :
  (url.engine_and_term (P := ascii_platform.platform) "cats !gg").1 = "DEFAULT"
  \/ exists a b,
       marker (P := ascii_platform.platform) "cats !gg" a
         (url.engine_and_term (P := ascii_platform.platform) "cats !gg").1 b.
Proof.
  apply (engine_is_default_or_marker_word (P := ascii_platform.platform)
           "cats !gg").
  exact ascii_tables_ok.
Defined.

Lemma sub_from_sublist (p : re.pattern) (rest : string) (skip pos : nat) :
  list_ascii_of_string (re.sub_from p "" skip pos rest)
  `sublist_of` list_ascii_of_string rest.
Proof.
  revert skip pos. induction rest as [|c rest IH]; intros skip pos.
  - destruct skip; cbn [re.sub_from]; [|reflexivity].
    destruct (re.match_at p pos ""); reflexivity.
  - destruct skip as [|k]; cbn [re.sub_from list_ascii_of_string].
    + destruct (re.match_at p pos (String c rest)) as [m|].
      * cbn [String.append]. destruct (re.m_end m - pos).
        -- cbn [list_ascii_of_string]. apply sublist_skip, IH.
        -- apply sublist_cons, IH.
      * cbn [list_ascii_of_string]. apply sublist_skip, IH.
    + apply sublist_cons, IH.
Qed.

(** The term is the text with characters taken out: nothing is added to it
    and nothing changes place. *)
Theorem term_is_sublist_of_text {P : Platform} (txt : string) :
  list_ascii_of_string (url.engine_and_term txt).2
  `sublist_of` list_ascii_of_string txt.
Proof.
  unfold url.engine_and_term.
  destruct (re.search url.search_re txt); cbn [snd]; [|reflexivity].
  apply sub_from_sublist.
Qed.

(** End to end: with autosearch on, in whatever mode, a text with a space
    and without [!] is searched for with the DEFAULT engine, without a DNS
    request; if [template.format] raises a ValueError the text itself is
    read as a URL, and any other exception is raised. *)
Theorem fuzzy_url_searches_text_with_space {P : Platform} (config : Config)
    (url : url.url_arg) (tr : list string) (template : string) :
  truthy (general_auto_search config) = true ->
  has_space (QUrl_toString (url.qurl url)) ->
  no_bang (url.urlstring url) -> url.urlstring url <> "" ->
  searchengines config !! "DEFAULT" = Some template ->
  url.fuzzy_url config url tr
  = match expand template (url.urlstring url) with
    | Ok q => (Ok q, tr)
    | Raise e =>
        if isinstance_ValueError e
        then (Ok (QUrl_fromUserInput (url.urlstring url)), tr)
        else (Raise e, tr)
    end.
Proof.
  intros Hon Hsp Hnb Hne Ht. unfold url.fuzzy_url, mbind, M_bind.
  rewrite is_url_space by assumption.
  unfold try_except_ValueError, lift.
  pose proof (engine_and_term_no_bang _ Hnb) as He.
  rewrite (get_search_url_expands config _ template) by (rewrite He; auto).
  rewrite He. cbn [snd]. unfold expand.
  destruct (str_format template (urllib_parse_quote (url.urlstring url)));
    reflexivity.
Qed.

Lemma fuzzy_url_searches_text_with_space_witness :
  url.fuzzy_url (P := ascii_platform.platform) ascii_platform.dns_config
    (url.AsStr "foo bar") []
  = (Ok "http://search.example/?q=foo%20bar", []).
Proof.
  apply (fuzzy_url_searches_text_with_space (P := ascii_platform.platform)
           ascii_platform.dns_config (url.AsStr "foo bar") []
           "http://search.example/?q={}").
  - reflexivity.
  - exists "foo", "bar". reflexivity.
  - reflexivity.
  - discriminate.
  - reflexivity.
Defined.

(** ** Two edges of the pattern *)

Section pattern_edges.
Context {P : Platform}.
Hypothesis Hbang : re_isspace "!" = false.
Hypothesis Hnl : re_isspace "010" = true.
Hypothesis Hdisj : forall c, re_isspace c = true -> re_isword c = false.

(** Before a final newline [$] matches, so the tail of the pattern stops in
    front of the newline and the third group is empty. *)
Lemma tail_matches_before_newline (pos : nat) (w : string) (g : gmap nat string) :
  w <> "" -> pystr.all re_isword w = true ->
  re.rmatch tail_re (re.Cursor pos ("!" ++ w ++ String "010" "") g) Some
  = Some (re.Cursor (pos + 1 + String.length w) (String "010" "")
            (<[3 := ""]> (<[2 := w]> g))).
Proof.
  intros Hw Hword.
  unfold tail_re. cbn [re.rmatch re.c_rest re.c_pos re.c_groups String.append].
  change (Ascii.eqb "!" "!") with true. cbn iota.
  apply re_facts.plus_greedy_longest; auto.
  { cbn [pystr.head_is]. apply Hdisj, Hnl. }
  cbn [re.c_pos re.c_rest re.c_groups].
  replace (S pos + String.length w - S pos) with (String.length w) by lia.
  rewrite str_facts.substring_app.
  change (re.at_eol (String "010" "")) with true. cbn iota.
  rewrite Nat.sub_diag. cbn [substring]. f_equal. f_equal. lia.
Qed.

Lemma newline_stays (w : string) :
  w <> "" -> pystr.all re_isword w = true ->
  url.engine_and_term ("!" ++ w ++ String "010" "") = (w, String "010" "").
Proof.
  intros Hw Hword.
  assert (Hm : re.match_at url.search_re 0 (("!" ++ w) ++ String "010" "")
               = Some (re.Match 0 (0 + String.length ("!" ++ w))
                         (<[3 := ""]> (<[2 := w]> (<[1 := ""]> ∅))))).
  { unfold re.match_at. rewrite rmatch_search_re. cbn [Nat.eqb].
    unfold after_group1.
    change (("!" ++ w) ++ String "010" "") with ("!" ++ w ++ String "010" "").
    rewrite tail_matches_before_newline by assumption.
    cbn [re.c_pos re.c_groups String.append String.length substring Nat.sub].
    reflexivity. }
  unfold url.engine_and_term, re.search, re.sub.
  change ("!" ++ w ++ String "010" "") with (("!" ++ w) ++ String "010" "").
  rewrite (search_from_hit _ _ _ _ Hm).
  unfold re.group. cbn [re.m_groups].
  rewrite lookup_insert_ne, lookup_insert_eq by discriminate.
  cbn [default]. f_equal.
  erewrite sub_from_hit;
    [| cbn [String.append]; discriminate | exact Hm | reflexivity].
  cbn [String.append]. apply sub_copies_no_bang. reflexivity.
Qed.

(** Behind a match, at a [!], no match starts: the start of the text is
    gone and the whitespace in front of the [!] is used up. *)
Lemma no_match_at_bang_inside (pos : nat) (s : string) :
  pos <> 0 -> re.match_at url.search_re pos (String "!" s) = None.
Proof.
  intros Hpos. unfold re.match_at. rewrite rmatch_search_re.
  destruct (Nat.eqb_spec pos 0); [contradiction|].
  cbn [re.plus_greedy]. rewrite Hbang. reflexivity.
Qed.

Lemma second_marker_stays (w1 ws w2 : string) :
  w1 <> "" -> pystr.all re_isword w1 = true ->
  ws <> "" -> pystr.all re_isspace ws = true ->
  no_bang w2 ->
  url.engine_and_term ("!" ++ w1 ++ ws ++ "!" ++ w2) = (w1, "!" ++ w2).
Proof.
  intros Hw1 Hword Hws Hspace Hnb.
  assert (Hm := match_at_marker Hbang Hdisj 0 "" w1 ws ("!" ++ w2)
                  ltac:(reflexivity) ltac:(reflexivity) Hw1 Hword Hspace).
  specialize (Hm Hbang ltac:(intros ->; contradiction)).
  assert (Hlone : ws ++ "!" ++ w2 <> String "010" "").
  { destruct ws as [|c [|d ws]]; [contradiction | |]; cbn [String.append];
      intros H; inversion H. }
  specialize (Hm Hlone). cbn [String.append String.length Nat.add] in Hm.
  unfold url.engine_and_term, re.search, re.sub.
  cbn [String.append].
  rewrite (search_from_hit _ _ _ _ Hm).
  unfold re.group. cbn [re.m_groups].
  rewrite lookup_insert_ne, lookup_insert_eq by discriminate.
  cbn [default]. f_equal.
  change (String "!" (w1 ++ ws ++ String "!" w2))
    with (String "!" (w1 ++ ws ++ "!" ++ w2)) in *.
  replace (String "!" (w1 ++ ws ++ "!" ++ w2))
    with (("!" ++ w1 ++ ws) ++ "!" ++ w2) in *
    by (cbn [String.append]; rewrite !str_facts.app_assoc; reflexivity).
  erewrite sub_from_hit; [| cbn [String.append]; discriminate | exact Hm |].
  - cbn [String.append]. rewrite sub_from_miss
      by (apply no_match_at_bang_inside; discriminate).
    f_equal. apply sub_copies_no_bang. exact Hnb.
  - cbn [re.m_end String.append String.length].
    rewrite !str_facts.length_app. lia.
Qed.

End pattern_edges.

(** A marker right before a final newline: [$] matches in front of the
    newline, so the newline is not part of the match and stays behind as the
    term; with a template for the word that is no error, the search is for
    the quoted newline. *)
Theorem marker_before_final_newline_keeps_newline {P : Platform}
    (config : Config) (w template : string) :
  tables_ok ->
  w <> "" -> pystr.all re_isword w = true ->
  searchengines config !! w = Some template ->
  url.engine_and_term ("!" ++ w ++ String "010" "") = (w, String "010" "")
  /\ url._get_search_url config ("!" ++ w ++ String "010" "")
     = expand template (String "010" "").
Proof.
  intros (Hbang & Hnl & Hdisj) Hw Hword Htemplate.
  pose proof (newline_stays Hnl Hdisj w Hw Hword) as He.
  split; [exact He|].
  rewrite (get_search_url_expands config _ template); rewrite He;
    [reflexivity | exact Htemplate | discriminate].
Qed.

Lemma marker_before_final_newline_keeps_newline_witness :
  url.engine_and_term (P := ascii_platform.platform)
    ("!" ++ "gg" ++ String "010" "") = ("gg", String "010" "")
  /\ url._get_search_url (P := ascii_platform.platform)
       ascii_platform.naive_config ("!" ++ "gg" ++ String "010" "")
     = expand (P := ascii_platform.platform) "http://gg.example/?q={}"
         (String "010" "").
Proof.
  apply (marker_before_final_newline_keeps_newline
           (P := ascii_platform.platform) ascii_platform.naive_config "gg"
           "http://gg.example/?q={}").
  - exact ascii_tables_ok.
  - discriminate.
  - reflexivity.
  - reflexivity.
Defined.

(** Two markers with only whitespace between them: the first selects the
    engine; its match takes the whitespace, so no match begins at the second
    marker, and the second marker stays in the term. *)
Theorem second_adjacent_marker_stays_in_term {P : Platform}
    (w1 ws w2 : string) :
  tables_ok ->
  w1 <> "" -> pystr.all re_isword w1 = true ->
  ws <> "" -> pystr.all re_isspace ws = true ->
  no_bang w2 ->
  url.engine_and_term ("!" ++ w1 ++ ws ++ "!" ++ w2) = (w1, "!" ++ w2).
Proof.
  intros (Hbang & Hnl & Hdisj) Hw1 Hword Hws Hspace Hnb.
  apply second_marker_stays; assumption.
Qed.

Lemma second_adjacent_marker_stays_in_term_witness :
  url.engine_and_term (P := ascii_platform.platform)
    ("!" ++ "a" ++ " " ++ "!" ++ "b") = ("a", "!" ++ "b").
Proof.
  apply (second_adjacent_marker_stays_in_term (P := ascii_platform.platform)
           "a" " " "b").
  - exact ascii_tables_ok.
  - discriminate.
  - reflexivity.
  - discriminate.
  - reflexivity.
  - reflexivity.
Defined.

(** ** UTF-8: decoding undoes encoding *)

Module utf8_facts.
Import utf8.
Local Open Scope Z_scope.
Local Open Scope list_scope.

(** settle a comparison in the goal by arithmetic *)
Ltac settle_cmp :=
  match goal with
  | |- context [Z.ltb ?a ?b] =>
      first [ replace (Z.ltb a b) with true by (symmetry; apply Z.ltb_lt; lia)
            | replace (Z.ltb a b) with false by (symmetry; apply Z.ltb_ge; lia) ]
  | |- context [Z.leb ?a ?b] =>
      first [ replace (Z.leb a b) with true by (symmetry; apply Z.leb_le; lia)
            | replace (Z.leb a b) with false by (symmetry; apply Z.leb_gt; lia) ]
  end.

(** the six low bits and the rest of a code point *)
Lemma split6 (c : Z) :
  0 <= c -> 0 <= c mod 0x40 < 0x40 /\ c = 0x40 * (c / 0x40) + c mod 0x40
            /\ 0 <= c / 0x40.
Proof.
  intros H. split; [apply Z.mod_pos_bound; lia|].
  split; [apply Z.div_mod; lia | apply Z.div_pos; lia].
Qed.

(** Every scalar value has an encoding. *)
Lemma encode_one_scalar (c : Z) :
  scalar c = true -> exists bs, encode_one c = Some bs.
Proof.
  unfold scalar, encode_one. intros H.
  apply andb_true_iff in H as [H Hs]. apply andb_true_iff in H as [H0 H1].
  apply Z.leb_le in H0. apply Z.ltb_lt in H1. apply negb_true_iff in Hs.
  rewrite Hs. repeat settle_cmp.
  destruct (c <? 0x80); [eauto|]. destruct (c <? 0x800); [eauto|].
  destruct (c <? 0x10000); eauto.
Qed.

Lemma encode_scalar (text : list Z) :
  forallb scalar text = true -> exists bs, encode text = Some bs.
Proof.
  induction text as [|c text IH]; simpl; [eauto|]. intros H.
  apply andb_true_iff in H as [Hc Ht].
  destruct (encode_one_scalar c Hc) as [b ->].
  destruct (IH Ht) as [bs ->]. eauto.
Qed.

(** The decoder reads one encoded code point back. *)
Lemma decode_encode_one (c : Z) (bs rest : list Z) :
  encode_one c = Some bs -> decode (bs ++ rest) = push c (decode rest).
Proof.
  unfold encode_one. intros H.
  destruct (Z.ltb_spec c 0) as [|H0]; [discriminate|].
  destruct (split6 c H0) as (Hm0 & Hc0 & Hq0).
  destruct (split6 (c / 0x40) Hq0) as (Hm1 & Hc1 & Hq1).
  destruct (split6 (c / 0x40 / 0x40) Hq1) as (Hm2 & Hc2 & Hq2).
  rewrite !Z.div_div in * by lia. change (0x40 * 0x40) with 0x1000 in *.
  change (0x1000 * 0x40) with 0x40000 in *.
  destruct (Z.ltb_spec c 0x80) as [H1|H1].
  { inversion H; subst. cbn [app decode]. repeat settle_cmp. reflexivity. }
  destruct (Z.ltb_spec c 0x800) as [H2|H2].
  { inversion H; subst. cbn [app decode]. unfold cont.
    repeat settle_cmp. cbn [andb]. f_equal. lia. }
  destruct (Z.ltb_spec c 0x10000) as [H3|H3].
  { destruct (surrogate c) eqn:Es; [discriminate|].
    inversion H; subst. cbn [app decode]. unfold cont. cbn zeta.
    replace ((0xE0 + c / 0x1000 - 0xE0) * 0x1000
             + (0x80 + (c / 0x40) mod 0x40 - 0x80) * 0x40
             + (0x80 + c mod 0x40 - 0x80)) with c by lia.
    rewrite Es. repeat settle_cmp. reflexivity. }
  destruct (Z.ltb_spec c 0x110000) as [H4|H4]; [|discriminate].
  inversion H; subst. cbn [app decode]. unfold cont. cbn zeta.
  replace ((0xF0 + c / 0x40000 - 0xF0) * 0x40000
           + (0x80 + (c / 0x1000) mod 0x40 - 0x80) * 0x1000
           + (0x80 + (c / 0x40) mod 0x40 - 0x80) * 0x40
           + (0x80 + c mod 0x40 - 0x80)) with c by lia.
  repeat settle_cmp. reflexivity.
Qed.

(** Decoding what was encoded gives the text back. *)
Lemma decode_encode (text bs : list Z) :
  encode text = Some bs -> decode bs = Some text.
Proof.
  revert bs. induction text as [|c text IH]; intros bs H; simpl in H.
  - inversion H. reflexivity.
  - destruct (encode_one c) as [b|] eqn:Hc; [|discriminate].
    destruct (encode text) as [bs'|] eqn:Ht; [|discriminate].
    inversion H; subst. rewrite (decode_encode_one c b bs' Hc).
    rewrite (IH bs' eq_refl). reflexivity.
Qed.
End utf8_facts.

(** ** The editor session *)

Module editor_facts.
Import editor.
Local Open Scope list_scope.

Lemma edit_starts (exe : string) (args : list string) (tmp : string)
    (text bytes : list Z) (s : ExternalEditor) (w : world) :
  filename s = None -> files w !! tmp = None -> utf8.encode text = Some bytes ->
  edit (exe :: args) tmp text (s, w)
  = (Done, (Session (Some tmp) (Some (exe, build_args tmp args)),
            World (<[tmp := bytes]> (files w)) (errors w) (emitted w)
                  (fslog w ++ [Created tmp]))).
Proof. intros Hs Hf He. unfold edit. rewrite Hs, Hf, He. reflexivity. Qed.

Lemma build_args_lookup (name : string) (args : list string) (i : nat) (tok : string) :
  args !! i = Some tok ->
  (tok = "{}" -> build_args name args !! i = Some name)
  /\ (tok <> "{}" -> build_args name args !! i = Some tok).
Proof.
  intros H. unfold build_args.
  change (map ?f args) with (f <$> args). rewrite list_lookup_fmap, H. simpl.
  destruct (String.eqb_spec tok "{}"); split; intros; congruence.
Qed.

Lemma cleanup_editing (st : state) (name : string) (bytes : list Z) :
  editing st name bytes ->
  _cleanup st = (idle, World (delete name (files st.2)) (errors st.2)
                             (emitted st.2) (fslog st.2 ++ [Removed name])).
Proof.
  destruct st as [s w]. intros [Hn Hf]. simpl in *. rewrite Hn, Hf. reflexivity.
Qed.

Lemma cleanup_idle (st : state) : filename st.1 = None -> _cleanup st = st.
Proof. destruct st as [s w]. simpl. intros ->. reflexivity. Qed.

Lemma editing_notify (st : state) (name : string) (bytes : list Z) (n : notification) :
  editing st name bytes -> editing (notify n st) name bytes.
Proof. destruct st as [s w]. intros [? ?]. split; assumption. Qed.

(** A closed notification for a normal exit with a nonzero status. *)
Lemma closed_nonzero (st : state) (name : string) (bytes : list Z) (code : Z) :
  editing st name bytes -> code <> 0%Z ->
  on_proc_closed code NormalExit st
  = (idle, World (delete name (files st.2)) (errors st.2 ++ [ProcessExitError code])
                 (emitted st.2) (fslog st.2 ++ [Removed name])).
Proof.
  intros Hed Hcode. destruct st as [s w]. destruct Hed as [Hname Hfile].
  cbn [fst snd] in *. unfold on_proc_closed. rewrite Hname.
  destruct (Z.eqb_spec code 0); [contradiction|].
  rewrite (cleanup_editing _ name bytes); [reflexivity | split; assumption].
Qed.

(** A crash. *)
Lemma crashed (st : state) (name : string) (bytes : list Z) (err : ProcessError) :
  editing st name bytes ->
  on_proc_error err st
  = (idle, World (delete name (files st.2)) (errors st.2 ++ [ProcessCrashError err])
                 (emitted st.2) (fslog st.2 ++ [Removed name])).
Proof.
  intros Hed. destruct st as [s w]. destruct Hed as [Hname Hfile].
  cbn [fst snd] in *. unfold on_proc_error.
  rewrite (cleanup_editing _ name bytes); [reflexivity | split; assumption].
Qed.

(** A closed notification for a crash exit. *)
Lemma closed_crash (st : state) (name : string) (bytes : list Z) (code : Z) :
  editing st name bytes ->
  on_proc_closed code CrashExit st
  = (idle, World (delete name (files st.2)) (errors st.2)
                 (emitted st.2) (fslog st.2 ++ [Removed name])).
Proof.
  intros Hed. destruct st as [s w]. destruct Hed as [Hname Hfile].
  cbn [fst snd] in *. unfold on_proc_closed. rewrite Hname.
  rewrite (cleanup_editing _ name bytes); [reflexivity | split; assumption].
Qed.

(** A closed notification that finds the session idle changes nothing. *)
Lemma closed_idle (st : state) (code : Z) (status : ExitStatus) :
  filename st.1 = None -> on_proc_closed code status st = st.
Proof. destruct st as [s w]. simpl. intros ->. reflexivity. Qed.

(** A closed notification for a normal exit with status 0: the decoded
    contents of the file are emitted. *)
Lemma closed_ok (st : state) (name : string) (bytes text : list Z) :
  editing st name bytes -> utf8.decode bytes = Some text ->
  on_proc_closed 0 NormalExit st
  = (idle, World (delete name (files st.2)) (errors st.2)
                 (emitted st.2 ++ [text]) (fslog st.2 ++ [Removed name])).
Proof.
  intros Hed Hdec. destruct st as [s w]. destruct Hed as [Hname Hfile].
  cbn [fst snd] in *. unfold on_proc_closed. rewrite Hname.
  change (0 =? 0)%Z with true. cbn iota. rewrite Hfile, Hdec.
  rewrite (cleanup_editing _ name bytes); [reflexivity | split; assumption].
Qed.

Lemma editor_saves_editing (st : state) (name : string) (old bytes : list Z) :
  editing st name old -> editing (editor_saves bytes st) name bytes.
Proof.
  destruct st as [s w]. intros [Hname Hfile]. unfold editor_saves.
  simpl in Hname. rewrite Hname. split; [exact Hname|]. simpl.
  apply lookup_insert_eq.
Qed.

(** A closed notification for a normal exit with status 0 when the file
    is not valid UTF-8: an error is shown instead of a text. *)
Lemma closed_unreadable (st : state) (name : string) (bytes : list Z) :
  editing st name bytes -> utf8.decode bytes = None ->
  on_proc_closed 0 NormalExit st
  = (idle, World (delete name (files st.2)) (errors st.2 ++ [FileAccessError name])
                 (emitted st.2) (fslog st.2 ++ [Removed name])).
Proof.
  intros Hed Hdec. destruct st as [s w]. destruct Hed as [Hname Hfile].
  cbn [fst snd] in *. unfold on_proc_closed. rewrite Hname.
  change (0 =? 0)%Z with true. cbn iota. rewrite Hfile, Hdec.
  rewrite (cleanup_editing _ name bytes); [reflexivity | split; assumption].
Qed.


Lemma closed_terminates (st : state) (name : string) (bytes : list Z)
    (code : Z) (status : ExitStatus) :
  editing st name bytes -> terminated st name (on_proc_closed code status st).
Proof.
  intros Hed. destruct status.
  - destruct (Z.eq_dec code 0%Z) as [-> | Hcode].
    + destruct (utf8.decode bytes) as [text|] eqn:Hdec.
      * rewrite (closed_ok _ _ _ _ Hed Hdec). repeat split.
      * rewrite (closed_unreadable _ _ _ Hed Hdec). repeat split.
    + rewrite (closed_nonzero _ _ _ _ Hed Hcode). repeat split.
  - rewrite (closed_crash _ _ _ _ Hed). repeat split.
Qed.

Lemma error_terminates (st : state) (name : string) (bytes : list Z)
    (err : ProcessError) :
  editing st name bytes -> terminated st name (on_proc_error err st).
Proof. intros Hed. rewrite (crashed _ _ _ _ Hed). repeat split. Qed.

Lemma cleanup_terminates (st : state) (name : string) (bytes : list Z) :
  editing st name bytes -> terminated st name (_cleanup st).
Proof. intros Hed. rewrite (cleanup_editing _ _ _ Hed). repeat split. Qed.

Lemma error_idle (st : state) (err : ProcessError) :
  filename st.1 = None ->
  on_proc_error err st
  = (st.1, World (files st.2) (errors st.2 ++ [ProcessCrashError err])
                 (emitted st.2) (fslog st.2)).
Proof.
  destruct st as [s w]. cbn [fst snd]. intros H. unfold on_proc_error.
  apply cleanup_idle. exact H.
Qed.

Lemma count_snoc (P : fs_event -> Prop) `{!forall e, Decision (P e)}
    (l : list fs_event) (e : fs_event) :
  length (filter P (l ++ [e]))
  = length (filter P l) + (if decide (P e) then 1 else 0).
Proof.
  rewrite filter_app, length_app. f_equal.
  rewrite filter_cons. destruct (decide (P e)); reflexivity.
Qed.

Lemma balanced_initial (fs : gmap string (list Z)) : balanced (initial fs).
Proof. split; [intros name; reflexivity | intros name H; discriminate]. Qed.

Lemma balanced_editing (st : state) (name : string) :
  balanced st -> filename st.1 = Some name -> exists bytes, editing st name bytes.
Proof.
  intros [_ Hfile] Hname. destruct (Hfile name Hname) as [bytes Hb].
  exists bytes. split; assumption.
Qed.

Lemma balanced_terminated (st st' : state) (name : string) :
  balanced st -> filename st.1 = Some name -> terminated st name st' ->
  balanced st'.
Proof.
  intros [Hcount _] Hname (Hidle & _ & Hlog).
  destruct st as [s w], st' as [s' w']. cbn [fst snd] in *. subst s'.
  split; [|intros name' H; discriminate].
  intros name'. specialize (Hcount name'). unfold creations, removals in *.
  cbn [fst snd] in *. rewrite Hlog, !count_snoc, Hcount, Hname. cbn [filename idle].
  repeat case_decide; try congruence; lia.
Qed.

Lemma balanced_created (s : ExternalEditor) (w : world) (tmp : string)
    (bytes : list Z) (p : option (string * list string)) :
  balanced (s, w) -> filename s = None ->
  balanced (Session (Some tmp) p,
            World (<[tmp := bytes]> (files w)) (errors w) (emitted w)
                  (fslog w ++ [Created tmp])).
Proof.
  intros [Hcount _] Hname. split; cbn [fst snd filename files].
  - intros name. specialize (Hcount name). unfold creations, removals in *.
    cbn [fst snd fslog] in *. rewrite !count_snoc, Hcount, Hname.
    repeat case_decide; try congruence; lia.
  - intros name H. inversion H; subst. rewrite lookup_insert_eq. eauto.
Qed.

Lemma balanced_step (ev : event) (st : state) :
  balanced st -> balanced (step ev st).
Proof.
  intros Hb. destruct (filename st.1) as [name|] eqn:Hname.
  - destruct (balanced_editing _ _ Hb Hname) as [bytes Hed].
    destruct ev as [cmd tmp text | saved | code status | err | ]; cbn [step].
    + destruct st as [s w]. cbn [fst] in Hname. unfold edit. rewrite Hname. exact Hb.
    + destruct Hb as [Hcount Hfile]. destruct st as [s w]. cbn [fst snd] in *.
      unfold editor_saves. rewrite Hname. split; cbn [fst snd filename files fslog].
      * exact Hcount.
      * intros name' H. rewrite Hname in H. inversion H; subst.
        rewrite lookup_insert_eq. eauto.
    + eapply balanced_terminated; eauto using closed_terminates.
    + eapply balanced_terminated; eauto using error_terminates.
    + eapply balanced_terminated; eauto using cleanup_terminates.
  - destruct ev as [cmd tmp text | saved | code status | err | ]; cbn [step].
    + destruct st as [s w]. cbn [fst] in Hname. unfold edit. rewrite Hname.
      destruct (files w !! tmp); [exact Hb|].
      destruct (utf8.encode text); [destruct cmd|]; cbn [snd];
        apply (balanced_created s w); assumption.
    + destruct st as [s w]. cbn [fst] in Hname. unfold editor_saves.
      rewrite Hname. exact Hb.
    + rewrite closed_idle by assumption. exact Hb.
    + rewrite error_idle by assumption. destruct st as [s w]. exact Hb.
    + rewrite cleanup_idle by assumption. exact Hb.
Qed.

Lemma balanced_run (evs : list event) (st : state) :
  balanced st -> balanced (run evs st).
Proof.
  revert st. induction evs as [|ev evs IH]; intros st Hb; [exact Hb|].
  cbn [run foldl]. apply IH, balanced_step, Hb.
Qed.
End editor_facts.

(** ** The test cases of test_editor.py hold of the model *)

Module test_editor_passes.
Import editor editor_facts test_editor.
Local Open Scope list_scope.

Lemma after_edit_spec (exe : string) (args : list string) (tmp : string)
    (text bytes : list Z) :
  utf8.encode text = Some bytes ->
  after_edit (exe :: args) tmp text
  = (Session (Some tmp) (Some (exe, build_args tmp args)),
     World (<[tmp := bytes]> ∅) [] [] [Created tmp]).
Proof.
  intros He. unfold after_edit, initial.
  rewrite (edit_starts exe args tmp text bytes);
    [reflexivity | reflexivity | apply lookup_empty | assumption].
Qed.

Lemma after_edit_editing (exe : string) (args : list string) (tmp : string)
    (text bytes : list Z) :
  utf8.encode text = Some bytes ->
  editing (after_edit (exe :: args) tmp text) tmp bytes.
Proof.
  intros He. rewrite (after_edit_spec _ _ _ _ _ He).
  split; [reflexivity | apply lookup_insert_eq].
Qed.

Lemma simple_start_args (tmp : string) : test_simple_start_args tmp.
Proof.
  unfold test_simple_start_args.
  now rewrite (after_edit_spec "bin" [] tmp [] [] eq_refl).
Qed.

Lemma start_args (tmp : string) : test_start_args tmp.
Proof.
  unfold test_start_args.
  now rewrite (after_edit_spec "bin" ["foo"; "bar"] tmp [] [] eq_refl).
Qed.

Lemma placeholder (tmp : string) : test_placeholder tmp.
Proof.
  unfold test_placeholder.
  rewrite (after_edit_spec "bin" ["foo"; "{}"; "bar"] tmp [] [] eq_refl).
  exists tmp. split; reflexivity.
Qed.

Lemma in_arg_placeholder (tmp : string) : test_in_arg_placeholder tmp.
Proof.
  unfold test_in_arg_placeholder.
  now rewrite (after_edit_spec "bin" ["foo{}bar"] tmp [] [] eq_refl).
Qed.

Lemma gone_after (st st' : state) (name : string) :
  terminated st name st' -> ~ exists_ st' name.
Proof.
  intros (_ & Hf & _) [x Hx]. rewrite Hf, lookup_delete_eq in Hx. discriminate.
Qed.

Lemma file_handling_closed_ok (tmp : string) : test_file_handling_closed_ok tmp.
Proof.
  pose proof (after_edit_editing "" [] tmp [] [] eq_refl) as Hed.
  exists tmp. destruct Hed as [Hn Hf]. split; [exact Hn|]. split.
  - unfold exists_. rewrite Hf. eauto.
  - eapply gone_after, closed_terminates. split; eassumption.
Qed.

Lemma file_handling_closed_error (tmp : string) :
  test_file_handling_closed_error tmp.
Proof.
  pose proof (after_edit_editing "" [] tmp [] [] eq_refl) as Hed.
  exists tmp. destruct Hed as [Hn Hf]. split; [exact Hn|]. split.
  - unfold exists_. rewrite Hf. eauto.
  - eapply gone_after, closed_terminates. split; eassumption.
Qed.

Lemma file_handling_closed_crash (tmp : string) :
  test_file_handling_closed_crash tmp.
Proof.
  pose proof (after_edit_editing "" [] tmp [] [] eq_refl) as Hed.
  exists tmp. pose proof Hed as [Hn Hf]. split; [exact Hn|]. split.
  - unfold exists_. rewrite Hf. eauto.
  - rewrite closed_idle by (rewrite (crashed _ _ _ _ Hed); reflexivity).
    eapply gone_after, error_terminates. eassumption.
Qed.

Lemma universal_newlines_id (text : list Z) :
  no_cr text -> universal_newlines text = text.
Proof.
  unfold no_cr. induction text as [|c text IH]; [reflexivity|].
  cbn [forallb universal_newlines]. intros [Hc Hrest]%andb_true_iff.
  apply negb_true_iff in Hc. rewrite Hc, IH by assumption. reflexivity.
Qed.

(** A carriage return in the text does not come back from [_read]. *)
Lemma read_translates_cr (tmp : string) :
  _read (after_edit [""] tmp [13%Z]) = Some [10%Z].
Proof.
  pose proof (after_edit_editing "" [] tmp [13%Z] [13%Z] eq_refl) as [Hn Hf].
  unfold _read. rewrite Hn, Hf. reflexivity.
Qed.

Lemma text_modify (before after : list Z) (tmp : string) :
  unicode before -> no_cr before -> unicode after ->
  text_modify_test before after tmp.
Proof.
  intros Hb Hcr Ha.
  destruct (utf8_facts.encode_scalar _ Hb) as [bytes Hbytes].
  destruct (utf8_facts.encode_scalar _ Ha) as [saved Hsaved].
  pose proof (after_edit_editing "" [] tmp before bytes Hbytes) as Hed.
  split.
  - unfold _read. destruct Hed as [-> ->].
    rewrite (utf8_facts.decode_encode _ _ Hbytes). cbn [fmap option_fmap option_map].
    rewrite universal_newlines_id by assumption. reflexivity.
  - unfold _write, emit_called_with. rewrite Hsaved.
    rewrite (closed_ok _ tmp saved after);
      [| eapply editor_saves_editing; eassumption
       | apply utf8_facts.decode_encode, Hsaved].
    cbn [snd emitted]. apply last_snoc.
Qed.

Lemma empty_input (tmp : string) : test_empty_input tmp.
Proof. apply text_modify; reflexivity. Qed.

Lemma simple_input (tmp : string) : test_simple_input tmp.
Proof. apply text_modify; reflexivity. Qed.

Lemma umlaut (tmp : string) : test_umlaut tmp.
Proof. apply text_modify; reflexivity. Qed.

Lemma unicode_ (tmp : string) : test_unicode tmp.
Proof. apply text_modify; reflexivity. Qed.

Lemma proc_error (tmp : string) : test_proc_error tmp.
Proof.
  unfold test_proc_error.
  rewrite (crashed _ _ _ _ (after_edit_editing "" [] tmp [] [] eq_refl)).
  cbn [snd errors]. intros H. apply app_eq_nil in H as [_ H]. discriminate.
Qed.

Lemma proc_return (tmp : string) : test_proc_return tmp.
Proof.
  unfold test_proc_return.
  rewrite (closed_nonzero _ _ _ 1%Z (after_edit_editing "" [] tmp [] [] eq_refl))
    by discriminate.
  cbn [snd errors]. intros H. apply app_eq_nil in H as [_ H]. discriminate.
Qed.
End test_editor_passes.

(** ** The properties of the editor session *)

Local Open Scope list_scope.

Lemma snowman_editing : editing snowman_session snowman_tmp [226; 152; 131]%Z.
Proof. split; reflexivity. Qed.

Lemma ready_initial (fs : gmap string (list Z)) (tmp : string) :
  fs !! tmp = None -> ready (editor.initial fs) tmp.
Proof. intros H. split; [reflexivity | exact H]. Qed.

(** C1, as the specification has it, fails: with the command
    [bin foo{}bar] the process is started with the argument [foo{}bar]
    itself (what ArgTests.test_in_arg_placeholder asserts), not with the
    path put in the place of the braces. *)
Lemma embedded_placeholder_is_not_substituted :
  editor.proc (test_editor.after_edit ["bin"; "foo{}bar"] snowman_tmp []).1
  = Some ("bin", ["foo{}bar"])
  /\ claimed_build_args snowman_tmp ["foo{}bar"] = ["foo/tmp/tmpq7x2bar"]
  /\ editor.build_args snowman_tmp ["foo{}bar"]
     <> claimed_build_args snowman_tmp ["foo{}bar"].
Proof. split; [reflexivity | split; [reflexivity | discriminate]]. Qed.

(** C1, amended: when the session builds the command line, every token
    equal to the placeholder [{}] is replaced by the path of the temp file,
    and every other token, also one that contains [{}] inside a longer text,
    is passed on unchanged. *)
Theorem edit_replaces_placeholder_tokens (exe : string) (args : list string)
    (tmp : string) (text : list Z) (st : editor.state) :
  ready st tmp -> unicode text ->
  exists st' args',
    editor.edit (exe :: args) tmp text st = (editor.Done, st')
    /\ editor.filename st'.1 = Some tmp
    /\ editor.proc st'.1 = Some (exe, args')
    /\ length args' = length args
    /\ forall i tok, args !! i = Some tok ->
         (tok = "{}" -> args' !! i = Some tmp)
         /\ (tok <> "{}" -> args' !! i = Some tok).
Proof.
  intros [Hidle Hfree] Htext. destruct st as [s w]. cbn [fst snd] in *.
  destruct (utf8_facts.encode_scalar _ Htext) as [bytes Hbytes].
  eexists. exists (editor.build_args tmp args).
  split; [apply (editor_facts.edit_starts exe args tmp text bytes); assumption|].
  cbn [fst editor.filename editor.proc].
  split; [reflexivity|]. split; [reflexivity|]. split.
  - unfold editor.build_args. apply length_map.
  - intros i tok Hi. apply editor_facts.build_args_lookup. exact Hi.
Qed.

Lemma edit_replaces_placeholder_tokens_witness :
  exists st' args',
    editor.edit ["vim"; "-f"; "{}"; "--name={}"] snowman_tmp test_editor.snowman
      (editor.initial ∅) = (editor.Done, st')
    /\ editor.filename st'.1 = Some snowman_tmp
    /\ editor.proc st'.1 = Some ("vim", args')
    /\ length args' = 3
    /\ forall i tok, ["-f"; "{}"; "--name={}"] !! i = Some tok ->
         (tok = "{}" -> args' !! i = Some snowman_tmp)
         /\ (tok <> "{}" -> args' !! i = Some tok).
Proof.
  apply (edit_replaces_placeholder_tokens "vim" ["-f"; "{}"; "--name={}"]
           snowman_tmp test_editor.snowman (editor.initial ∅)).
  - apply ready_initial. reflexivity.
  - reflexivity.
Defined.

(** C2: for every Unicode text X, [edit(X)] writes the UTF-8 encoding of X
    to the temp file; when the process exits with status 0 the session
    decodes the whole file and emits that text; so closing right after
    [edit(X)] emits X, and closing after the editor saved the encoding of a
    text emits that text. *)
Theorem edit_then_close_round_trip (exe : string) (args : list string)
    (tmp : string) (X : list Z) (st : editor.state) :
  ready st tmp -> unicode X ->
  exists bytes st1,
    editor.edit (exe :: args) tmp X st = (editor.Done, st1)
    /\ utf8.encode X = Some bytes
    /\ utf8.decode bytes = Some X
    /\ editing st1 tmp bytes
    /\ editor.emitted (editor.on_proc_closed 0 editor.NormalExit st1).2
       = editor.emitted st.2 ++ [X]
    /\ forall saved text, utf8.decode saved = Some text ->
         editor.emitted
           (editor.on_proc_closed 0 editor.NormalExit
              (editor.editor_saves saved st1)).2
         = editor.emitted st.2 ++ [text].
Proof.
  intros [Hidle Hfree] HX. destruct st as [s w]. cbn [fst snd] in *.
  destruct (utf8_facts.encode_scalar _ HX) as [bytes Hbytes].
  pose proof (utf8_facts.decode_encode _ _ Hbytes) as Hdec.
  set (st1 := (editor.Session (Some tmp) (Some (exe, editor.build_args tmp args)),
               editor.World (<[tmp := bytes]> (editor.files w)) (editor.errors w)
                 (editor.emitted w) (editor.fslog w ++ [editor.Created tmp]))).
  assert (Hed : editing st1 tmp bytes).
  { split; [reflexivity | apply lookup_insert_eq]. }
  exists bytes, st1.
  split; [apply (editor_facts.edit_starts exe args tmp X bytes); assumption|].
  split; [exact Hbytes|]. split; [exact Hdec|]. split; [exact Hed|]. split.
  - rewrite (editor_facts.closed_ok _ _ _ _ Hed Hdec). reflexivity.
  - intros saved text Hsaved.
    rewrite (editor_facts.closed_ok _ tmp saved text);
      [reflexivity | eapply editor_facts.editor_saves_editing; eassumption
       | assumption].
Qed.

Lemma edit_then_close_round_trip_witness :
  exists bytes st1,
    editor.edit ["vim"; "{}"] snowman_tmp test_editor.snowman (editor.initial ∅)
    = (editor.Done, st1)
    /\ utf8.encode test_editor.snowman = Some bytes
    /\ utf8.decode bytes = Some test_editor.snowman
    /\ editing st1 snowman_tmp bytes
    /\ editor.emitted (editor.on_proc_closed 0 editor.NormalExit st1).2
       = [] ++ [test_editor.snowman]
    /\ forall saved text, utf8.decode saved = Some text ->
         editor.emitted
           (editor.on_proc_closed 0 editor.NormalExit
              (editor.editor_saves saved st1)).2
         = [] ++ [text].
Proof.
  apply (edit_then_close_round_trip "vim" ["{}"] snowman_tmp
           test_editor.snowman (editor.initial ∅)).
  - apply ready_initial. reflexivity.
  - reflexivity.
Defined.

(** C3: for a session that is editing, a close with a nonzero exit status
    and a crash emit no text, remove the temp file and show the user an
    error; after a crash a later closed notification, whatever it reports,
    emits nothing either. *)
Theorem failed_exit_emits_nothing (st : editor.state) (name : string)
    (bytes : list Z) :
  editing st name bytes ->
  (forall code, code <> 0%Z ->
     let st' := editor.on_proc_closed code editor.NormalExit st in
     editor.emitted st'.2 = editor.emitted st.2
     /\ editor.files st'.2 !! name = None
     /\ editor.errors st'.2 = editor.errors st.2 ++ [editor.ProcessExitError code])
  /\ (forall err,
     let st' := editor.on_proc_error err st in
     editor.emitted st'.2 = editor.emitted st.2
     /\ editor.files st'.2 !! name = None
     /\ editor.errors st'.2 = editor.errors st.2 ++ [editor.ProcessCrashError err])
  /\ (forall err code status,
     let st' := editor.on_proc_closed code status (editor.on_proc_error err st) in
     editor.emitted st'.2 = editor.emitted st.2
     /\ editor.files st'.2 !! name = None
     /\ editor.errors st'.2 = editor.errors st.2 ++ [editor.ProcessCrashError err]).
Proof.
  intros Hed. split; [|split].
  - intros code Hcode. cbn zeta.
    rewrite (editor_facts.closed_nonzero _ _ _ _ Hed Hcode).
    repeat split. apply lookup_delete_eq.
  - intros err. cbn zeta. rewrite (editor_facts.crashed _ _ _ _ Hed).
    repeat split. apply lookup_delete_eq.
  - intros err code status. cbn zeta.
    rewrite editor_facts.closed_idle
      by (rewrite (editor_facts.crashed _ _ _ _ Hed); reflexivity).
    rewrite (editor_facts.crashed _ _ _ _ Hed).
    repeat split. apply lookup_delete_eq.
Qed.

Lemma failed_exit_emits_nothing_witness :
  editor.emitted (editor.on_proc_closed 2 editor.NormalExit snowman_session).2
  = editor.emitted snowman_session.2
  /\ editor.files (editor.on_proc_closed 2 editor.NormalExit snowman_session).2
     !! snowman_tmp = None
  /\ editor.errors (editor.on_proc_closed 2 editor.NormalExit snowman_session).2
     = editor.errors snowman_session.2 ++ [editor.ProcessExitError 2].
Proof.
  destruct (failed_exit_emits_nothing snowman_session snowman_tmp
              [226; 152; 131]%Z snowman_editing) as (Hclosed & _ & _).
  apply (Hclosed 2%Z). discriminate.
Defined.

Lemma cleanup_idempotent (st : editor.state) :
  editor._cleanup (editor._cleanup st) = editor._cleanup st.
Proof.
  destruct st as [s w]. destruct (editor.filename s) as [name|] eqn:Hname.
  - destruct (editor.files w !! name) as [bytes|] eqn:Hf.
    + rewrite (editor_facts.cleanup_editing (s, w) name bytes) by (split; assumption).
      reflexivity.
    + assert (Hc : editor._cleanup (s, w) = (editor.idle, w))
        by (unfold editor._cleanup; rewrite Hname, Hf; reflexivity).
      rewrite Hc. reflexivity.
  - rewrite (editor_facts.cleanup_idle (s, w)) by exact Hname.
    apply editor_facts.cleanup_idle. exact Hname.
Qed.

Lemma balanced_live (st : editor.state) (name : string) :
  balanced st ->
  editor.live name st.2 <-> editor.filename st.1 = Some name.
Proof.
  intros [Hcount _]. specialize (Hcount name). unfold editor.live.
  revert Hcount. case_decide; intros Hcount; split; intros H';
    try assumption; try lia; try contradiction.
Qed.

Lemma run_snoc (evs : list editor.event) (ev : editor.event) (st : editor.state) :
  editor.run (evs ++ [ev]) st = editor.step ev (editor.run evs st).
Proof. unfold editor.run. rewrite foldl_app. reflexivity. Qed.

(** a terminal event on an editing session *)
Lemma terminal_step_editing (st : editor.state) (name : string) (bytes : list Z)
    (ev : editor.event) :
  editing st name bytes -> terminal ev -> terminated st name (editor.step ev st).
Proof.
  intros Hed Hev.
  destruct ev as [cmd tmp text | saved | code status | err | ]; cbn [editor.step];
    try contradiction.
  - eapply editor_facts.closed_terminates; eauto.
  - eapply editor_facts.error_terminates; eauto.
  - eapply editor_facts.cleanup_terminates; eauto.
Qed.

(** a terminal event on an idle session *)
Lemma terminal_step_idle (st : editor.state) (ev : editor.event) :
  editor.filename st.1 = None -> terminal ev ->
  (editor.step ev st).1 = st.1
  /\ editor.files (editor.step ev st).2 = editor.files st.2
  /\ editor.fslog (editor.step ev st).2 = editor.fslog st.2.
Proof.
  intros Hidle Hev.
  destruct ev as [cmd tmp text | saved | code status | err | ]; cbn [editor.step];
    try contradiction.
  - rewrite editor_facts.closed_idle by assumption. auto.
  - rewrite editor_facts.error_idle by assumption. auto.
  - rewrite editor_facts.cleanup_idle by assumption. auto.
Qed.

(** an edit out of a ready session: whatever it returns, the temp file is
    there, the session holds its name and the creation is logged *)
Lemma edit_creates (cmd : list string) (tmp : string) (text : list Z)
    (st : editor.state) :
  ready st tmp ->
  let st' := (editor.edit cmd tmp text st).2 in
  editor.filename st'.1 = Some tmp
  /\ is_Some (editor.files st'.2 !! tmp)
  /\ editor.fslog st'.2 = editor.fslog st.2 ++ [editor.Created tmp].
Proof.
  destruct st as [s w]. intros [Hs Hf]. cbn [fst snd] in *. cbn zeta.
  unfold editor.edit. rewrite Hs, Hf.
  destruct (utf8.encode text); [destruct cmd|];
    cbn [fst snd editor.filename editor.files editor.fslog];
    rewrite lookup_insert_eq; eauto.
Qed.

(** C4: along every run of a session there is at most one live temp file,
    the one being edited, and it exists; no temp file is removed more often
    than it was created, and when the session is idle again every temp file
    it created has been removed exactly as often as it was created.  An edit
    out of a ready session creates the temp file, which is then live; an
    edit of an editing session is refused and changes nothing, and the
    editor saving the file leaves the session and the log as they are.  Every
    terminal transition (a closed notification with any exit code and
    status, an error notification, a cleanup) of an editing session returns
    it to idle and removes the temp file, once, after which the file is not
    live; a terminal transition of an idle session removes nothing.  The
    cleanup is idempotent; a crash followed by a closed notification removes
    the temp file once, and the second notification changes nothing. *)
Theorem temp_file_removed_exactly_once :
  (forall fs evs,
     let st := editor.run evs (editor.initial fs) in
     (forall n1 n2, editor.live n1 st.2 -> editor.live n2 st.2 -> n1 = n2)
     /\ (forall name, editor.live name st.2 <-> editor.filename st.1 = Some name)
     /\ (forall name, editor.filename st.1 = Some name ->
                      is_Some (editor.files st.2 !! name))
     /\ (forall name, editor.removals name st.2 <= editor.creations name st.2)
     /\ (editor.filename st.1 = None ->
         forall name, editor.removals name st.2 = editor.creations name st.2))
  /\ (forall fs evs cmd tmp text,
        let st := editor.run evs (editor.initial fs) in
        let st' := editor.run (evs ++ [editor.EvEdit cmd tmp text])
                     (editor.initial fs) in
        ready st tmp ->
        editor.filename st'.1 = Some tmp
        /\ is_Some (editor.files st'.2 !! tmp)
        /\ editor.fslog st'.2 = editor.fslog st.2 ++ [editor.Created tmp]
        /\ editor.live tmp st'.2)
  /\ (forall fs evs name cmd tmp text,
        let st := editor.run evs (editor.initial fs) in
        editor.filename st.1 = Some name ->
        editor.run (evs ++ [editor.EvEdit cmd tmp text]) (editor.initial fs) = st)
  /\ (forall fs evs name saved,
        let st := editor.run evs (editor.initial fs) in
        let st' := editor.run (evs ++ [editor.EvSave saved]) (editor.initial fs) in
        editor.filename st.1 = Some name ->
        st'.1 = st.1
        /\ editor.files st'.2 = <[name := saved]> (editor.files st.2)
        /\ editor.fslog st'.2 = editor.fslog st.2)
  /\ (forall fs evs name ev,
        let st := editor.run evs (editor.initial fs) in
        let st' := editor.run (evs ++ [ev]) (editor.initial fs) in
        editor.filename st.1 = Some name -> terminal ev ->
        terminated st name st'
        /\ editor.files st'.2 !! name = None
        /\ editor.removals name st'.2 = S (editor.removals name st.2)
        /\ editor.creations name st'.2 = editor.creations name st.2
        /\ editor.removals name st'.2 = editor.creations name st'.2
        /\ ~ editor.live name st'.2)
  /\ (forall fs evs ev,
        let st := editor.run evs (editor.initial fs) in
        let st' := editor.run (evs ++ [ev]) (editor.initial fs) in
        editor.filename st.1 = None -> terminal ev ->
        st'.1 = st.1
        /\ editor.files st'.2 = editor.files st.2
        /\ editor.fslog st'.2 = editor.fslog st.2)
  /\ (forall st name bytes,
        editing st name bytes ->
        (forall code status,
           terminated st name (editor.on_proc_closed code status st))
        /\ (forall err, terminated st name (editor.on_proc_error err st))
        /\ terminated st name (editor._cleanup st))
  /\ (forall st, editor._cleanup (editor._cleanup st) = editor._cleanup st)
  /\ (forall st name bytes err code status,
        editing st name bytes ->
        let st1 := editor.on_proc_error err st in
        let st2 := editor.on_proc_closed code status st1 in
        editor.fslog st1.2 = editor.fslog st.2 ++ [editor.Removed name]
        /\ editor.files st1.2 !! name = None
        /\ st2 = st1).
Proof.
  assert (Hrun : forall fs evs, balanced (editor.run evs (editor.initial fs)))
    by (intros; apply editor_facts.balanced_run, editor_facts.balanced_initial).
  split; [|split; [|split; [|split; [|split; [|split; [|split; [|split]]]]]]].
  - intros fs evs st.
    pose proof (Hrun fs evs) as Hb. fold st in Hb.
    pose proof Hb as [Hcount Hfile]. repeat split.
    + intros n1 n2 H1%(balanced_live _ _ Hb) H2%(balanced_live _ _ Hb). congruence.
    + apply balanced_live, Hb.
    + apply balanced_live, Hb.
    + exact Hfile.
    + intros name. rewrite (Hcount name). lia.
    + intros Hidle name. specialize (Hcount name). revert Hcount.
      rewrite Hidle. case_decide; [discriminate | lia].
  - intros fs evs cmd tmp text st st' Hready.
    pose proof (Hrun fs (evs ++ [editor.EvEdit cmd tmp text])) as Hb'. fold st' in Hb'.
    assert (Hst' : st' = (editor.edit cmd tmp text st).2)
      by (unfold st'; rewrite run_snoc; reflexivity).
    destruct (edit_creates cmd tmp text st Hready) as (Hn & Hf & Hl).
    rewrite <- Hst' in Hn, Hf, Hl.
    repeat split; try assumption.
    apply (balanced_live _ _ Hb'). exact Hn.
  - intros fs evs name cmd tmp text st Hname.
    rewrite run_snoc. fold st. cbn [editor.step].
    destruct st as [s w]. cbn [fst] in Hname.
    unfold editor.edit. rewrite Hname. reflexivity.
  - intros fs evs name saved st st' Hname.
    assert (Hst' : st' = editor.editor_saves saved st)
      by (unfold st'; rewrite run_snoc; reflexivity).
    rewrite Hst'. destruct st as [s w]. cbn [fst] in Hname.
    unfold editor.editor_saves. rewrite Hname. auto.
  - intros fs evs name ev st st' Hname Hev.
    pose proof (Hrun fs evs) as Hb. fold st in Hb.
    pose proof (Hrun fs (evs ++ [ev])) as Hb'. fold st' in Hb'.
    destruct (editor_facts.balanced_editing _ _ Hb Hname) as [bytes Hed].
    assert (Hst' : st' = editor.step ev st)
      by (unfold st'; rewrite run_snoc; reflexivity).
    pose proof (terminal_step_editing st name bytes ev Hed Hev) as Ht.
    rewrite <- Hst' in Ht. pose proof Ht as (Hidle & Hfiles & Hlog).
    assert (Hrem : editor.removals name st'.2 = S (editor.removals name st.2)).
    { unfold editor.removals. rewrite Hlog, editor_facts.count_snoc.
      case_decide; [lia | congruence]. }
    assert (Hcre : editor.creations name st'.2 = editor.creations name st.2).
    { unfold editor.creations. rewrite Hlog, editor_facts.count_snoc.
      case_decide; [discriminate | lia]. }
    assert (Heq : editor.removals name st'.2 = editor.creations name st'.2).
    { destruct Hb as [Hcount _]. specialize (Hcount name).
      rewrite Hname in Hcount. revert Hcount.
      case_decide; [|congruence]. rewrite Hrem, Hcre. lia. }
    repeat split; try assumption.
    + rewrite Hfiles. apply lookup_delete_eq.
    + unfold editor.live. lia.
  - intros fs evs ev st st' Hidle Hev.
    assert (Hst' : st' = editor.step ev st)
      by (unfold st'; rewrite run_snoc; reflexivity).
    rewrite Hst'. apply terminal_step_idle; assumption.
  - intros st name bytes Hed. split; [|split].
    + intros code status. eapply editor_facts.closed_terminates; eauto.
    + intros err. eapply editor_facts.error_terminates; eauto.
    + eapply editor_facts.cleanup_terminates; eauto.
  - exact cleanup_idempotent.
  - intros st name bytes err code status Hed. cbn zeta.
    rewrite editor_facts.closed_idle
      by (rewrite (editor_facts.crashed _ _ _ _ Hed); reflexivity).
    rewrite (editor_facts.crashed _ _ _ _ Hed).
    repeat split. apply lookup_delete_eq.
Qed.

(** the snowman is edited, saved as a cloud by the editor, and the editor
    exits with status 0; then a late cleanup *)
Lemma temp_file_removed_exactly_once_witness :
  (let st := editor.run [] (editor.initial ∅) in
   let st' := editor.run ([] ++ [editor.EvEdit ["vim"; "{}"] snowman_tmp
                                   test_editor.snowman]) (editor.initial ∅) in
   editor.filename st'.1 = Some snowman_tmp
   /\ is_Some (editor.files st'.2 !! snowman_tmp)
   /\ editor.fslog st'.2 = editor.fslog st.2 ++ [editor.Created snowman_tmp]
   /\ editor.live snowman_tmp st'.2)
  /\ (let evs := [editor.EvEdit ["vim"; "{}"] snowman_tmp test_editor.snowman] in
      editor.run (evs ++ [editor.EvEdit ["vim"; "{}"] "/tmp/tmpother"
                            test_editor.cloud]) (editor.initial ∅)
      = editor.run evs (editor.initial ∅))
  /\ (let evs := [editor.EvEdit ["vim"; "{}"] snowman_tmp test_editor.snowman] in
      let st := editor.run evs (editor.initial ∅) in
      let st' := editor.run (evs ++ [editor.EvSave [226; 152; 129]%Z])
                   (editor.initial ∅) in
      st'.1 = st.1
      /\ editor.files st'.2 = <[snowman_tmp := [226; 152; 129]%Z]> (editor.files st.2)
      /\ editor.fslog st'.2 = editor.fslog st.2)
  /\ (let evs := [editor.EvEdit ["vim"; "{}"] snowman_tmp test_editor.snowman;
                  editor.EvSave [226; 152; 129]%Z] in
      let st := editor.run evs (editor.initial ∅) in
      let st' := editor.run (evs ++ [editor.EvClosed 0 editor.NormalExit])
                   (editor.initial ∅) in
      terminated st snowman_tmp st'
      /\ editor.files st'.2 !! snowman_tmp = None
      /\ editor.removals snowman_tmp st'.2 = S (editor.removals snowman_tmp st.2)
      /\ editor.creations snowman_tmp st'.2 = editor.creations snowman_tmp st.2
      /\ editor.removals snowman_tmp st'.2 = editor.creations snowman_tmp st'.2
      /\ ~ editor.live snowman_tmp st'.2)
  /\ (let evs := [editor.EvEdit ["vim"; "{}"] snowman_tmp test_editor.snowman;
                  editor.EvClosed 0 editor.NormalExit] in
      let st := editor.run evs (editor.initial ∅) in
      let st' := editor.run (evs ++ [editor.EvCleanup]) (editor.initial ∅) in
      st'.1 = st.1
      /\ editor.files st'.2 = editor.files st.2
      /\ editor.fslog st'.2 = editor.fslog st.2)
  /\ ((forall code status,
         terminated snowman_session snowman_tmp
           (editor.on_proc_closed code status snowman_session))
      /\ (forall err, terminated snowman_session snowman_tmp
                        (editor.on_proc_error err snowman_session))
      /\ terminated snowman_session snowman_tmp (editor._cleanup snowman_session))
  /\ editor.fslog (editor.on_proc_error editor.Crashed snowman_session).2
     = editor.fslog snowman_session.2 ++ [editor.Removed snowman_tmp]
  /\ editor.files (editor.on_proc_error editor.Crashed snowman_session).2
     !! snowman_tmp = None
  /\ editor.on_proc_closed 0 editor.CrashExit
       (editor.on_proc_error editor.Crashed snowman_session)
     = editor.on_proc_error editor.Crashed snowman_session.
Proof.
  destruct temp_file_removed_exactly_once
    as (_ & Hedit & Hagain & Hsave & Hterm & Hidle & Hcalls & _ & Hcrash).
  split; [|split; [|split; [|split; [|split; [|split]]]]].
  - apply (Hedit ∅ [] ["vim"; "{}"] snowman_tmp test_editor.snowman).
    split; reflexivity.
  - apply (Hagain ∅ [editor.EvEdit ["vim"; "{}"] snowman_tmp test_editor.snowman]
             snowman_tmp ["vim"; "{}"] "/tmp/tmpother" test_editor.cloud).
    reflexivity.
  - apply (Hsave ∅ [editor.EvEdit ["vim"; "{}"] snowman_tmp test_editor.snowman]
             snowman_tmp [226; 152; 129]%Z).
    reflexivity.
  - apply (Hterm ∅ [editor.EvEdit ["vim"; "{}"] snowman_tmp test_editor.snowman;
                    editor.EvSave [226; 152; 129]%Z]
             snowman_tmp (editor.EvClosed 0 editor.NormalExit));
      [reflexivity | exact I].
  - apply (Hidle ∅ [editor.EvEdit ["vim"; "{}"] snowman_tmp test_editor.snowman;
                    editor.EvClosed 0 editor.NormalExit] editor.EvCleanup);
      [reflexivity | exact I].
  - apply (Hcalls snowman_session snowman_tmp [226; 152; 131]%Z).
    exact snowman_editing.
  - apply (Hcrash snowman_session snowman_tmp [226; 152; 131]%Z
             editor.Crashed 0%Z editor.CrashExit).
    exact snowman_editing.
Defined.
